(** * Material-dispatch dashboard: the data pipeline of [物料分析.py]

    A shallow embedding of [load_from_github], [load_data] (with its inner
    [value_segment]) and of the filtering block at the head of [main].

    Numeric columns are numpy [float64] columns: they are modelled by the
    IEEE-754 binary64 instance of the standard library's [SpecFloat], so that
    rounding, overflow and NaN behave as they do in the program.  Text columns
    are pandas [object] columns: a cell is [Some s] or the missing value
    [None].  A DataFrame is the list of its rows, in row order; the columns
    of a table that [load_data] never reads are left out.

    The pandas behaviour the program relies on is written out in the
    definitions: [groupby] drops the rows with a missing key cell and lists
    its groups in sorted key order; [sum] and [mean] skip missing cells;
    [merge] matches equal keys (two missing keys match), keeps the left order
    for [how='left'] and sorts the keys for [how='outer']; [quantile]
    interpolates linearly; and [df[col].fillna(v, inplace=True)] updates the
    column of [df], as it does in the pandas releases the program was written
    for.

    Three things are simpler here than in pandas.  Sums add the known cells
    one after the other in row order, while pandas compensates the rounding
    error of a group sum and numpy adds pairwise: the last bits of a sum of
    several cells may differ.  No property below depends on how a sum is
    rounded.  Numeric columns hold floats: a column of whole numbers that
    pandas reads as [int64] wraps around where a float rounds.  Key columns
    hold text: pandas reads a key column without any text as a column of
    floats, and its outer merge of two empty grouped tables raises when the
    key columns differ in this way, where the model returns an empty
    table. *)

From Stdlib Require Import ZArith List String Ascii Bool Lia Permutation Sorted.
From Stdlib Require Import OrderedTypeEx QArith Qabs Qpower Lqa.
From Stdlib Require Import Floats.FloatClass Floats.SpecFloat.
Import ListNotations.

Local Open Scope Z_scope.

(** ** binary64 arithmetic, as numpy performs it element by element *)

Module F64.

Definition prec : Z := 53.
Definition emax : Z := 1024.

Definition t : Type := spec_float.

Definition nan : t := S754_nan.
Definition zero : t := S754_zero false.

Definition add : t -> t -> t := SFadd prec emax.
Definition sub : t -> t -> t := SFsub prec emax.
Definition mul : t -> t -> t := SFmul prec emax.
Definition div : t -> t -> t := SFdiv prec emax.

(** [x == y], [x < y], [x <= y]; each is [False] when an operand is NaN. *)
Definition eqb : t -> t -> bool := SFeqb.
Definition ltb : t -> t -> bool := SFltb.
Definition leb : t -> t -> bool := SFleb.

(** [float(n)] for an integer [n], and the double nearest to [n / d]
    (how a decimal literal such as [0.1] is read). *)
Definition of_Z (n : Z) : t := binary_normalize prec emax n 0 false.
Definition of_ratio (n d : Z) : t := div (of_Z n) (of_Z d).

(** [pd.isna] on a float cell. *)
Definition isna (x : t) : bool :=
  match x with S754_nan => true | _ => false end.

Definition is_inf (x : t) : bool :=
  match x with S754_infinity _ => true | _ => false end.

(** [np.isfinite]. *)
Definition is_finite (x : t) : bool := negb (isna x || is_inf x).

(** [math.floor] of a float that is finite and not negative, as an integer
    (used only on the virtual index of a percentile). *)
Definition floor (x : t) : Z :=
  match x with
  | S754_finite false m e =>
      match e with
      | Zneg p => Z.shiftr (Zpos m) (Zpos p)
      | _ => Z.shiftl (Zpos m) e
      end
  | _ => 0
  end.

Definition one : t := of_Z 1.
Definition two : t := of_Z 2.
Definition hundred : t := of_Z 100.
Definition half : t := of_ratio 1 2.
Definition three_quarters : t := of_ratio 3 4.

End F64.

Definition float : Type := F64.t.

(** ** pandas column operations used by [load_data] *)

(** [s.fillna(v)] on one cell. *)
Definition fillna (v : float) (x : float) : float :=
  if F64.isna x then v else x.

(** [s.replace(0, np.nan)] on one cell: both zeros compare equal to [0]. *)
Definition replace_zero_nan (x : float) : float :=
  if F64.eqb x F64.zero then F64.nan else x.

(** [s.sum()]: missing cells are skipped, the others are added in row order,
    starting from [0.0]. *)
Definition sum_skipna (xs : list float) : float :=
  fold_left (fun acc x => if F64.isna x then acc else F64.add acc x) xs F64.zero.

(** [s.mean()]: the sum of the known cells over their number; NaN when no
    cell is known. *)
Definition mean_skipna (xs : list float) : float :=
  let known := filter (fun x => negb (F64.isna x)) xs in
  match known with
  | [] => F64.nan
  | _ => F64.div (sum_skipna known) (F64.of_Z (Z.of_nat (List.length known)))
  end.

(** Ascending sort of the known cells (insertion sort; no NaN is present when
    it is called, so [leb] is a total preorder on the cells). *)
Fixpoint insert_float (x : float) (l : list float) : list float :=
  match l with
  | [] => [x]
  | y :: l' => if F64.leb x y then x :: l else y :: insert_float x l'
  end.

Definition sort_floats (l : list float) : list float :=
  fold_right insert_float [] l.

(** numpy's [_lerp a b t]. *)
Definition lerp (a b t : float) : float :=
  let diff_b_a := F64.sub b a in
  if F64.leb F64.half t
  then F64.sub b (F64.mul diff_b_a (F64.sub F64.one t))
  else F64.add a (F64.mul diff_b_a t).

(** [s.quantile(q)] with the default linear interpolation: NaN cells are
    dropped, the rest sorted; the virtual index is [(n - 1) * q], and the
    result interpolates between its two neighbours. *)
Definition quantile (q : float) (xs : list float) : float :=
  let vs := sort_floats (filter (fun x => negb (F64.isna x)) xs) in
  match vs with
  | [] => F64.nan
  | _ =>
      let n := Z.of_nat (List.length vs) in
      let virtual_index := F64.mul (F64.of_Z (n - 1)) q in
      let previous_index := F64.floor virtual_index in
      let next_index := Z.min (previous_index + 1) (n - 1) in
      let gamma := F64.sub virtual_index (F64.of_Z previous_index) in
      lerp (nth (Z.to_nat previous_index) vs F64.nan)
           (nth (Z.to_nat next_index) vs F64.nan) gamma
  end.

(** [s.median()]: the middle known cell, or the mean of the two middle ones. *)
Definition median (xs : list float) : float :=
  let vs := sort_floats (filter (fun x => negb (F64.isna x)) xs) in
  let n := List.length vs in
  match vs with
  | [] => F64.nan
  | _ =>
      if Nat.even n
      then F64.div (F64.add (nth (n / 2 - 1)%nat vs F64.nan)
                            (nth (n / 2)%nat vs F64.nan)) F64.two
      else nth (n / 2)%nat vs F64.nan
  end.

(** ** Cells, keys and the generic table operations *)

(** A cell of an [object] column: text, or the missing value. *)
Definition cell : Type := option string.

Definition cell_eq_dec (a b : cell) : {a = b} + {a <> b}.
Proof. decide equality; apply string_dec. Defined.

(** Key equality as [pd.merge] and [isin] see it: two missing keys match. *)
Definition cell_eqb (a b : cell) : bool :=
  if cell_eq_dec a b then true else false.

(** [column == value] on one cell: a missing cell equals nothing. *)
Definition cell_is (a : cell) (v : cell) : bool :=
  match a, v with
  | Some x, Some y => String.eqb x y
  | _, _ => false
  end.

(** [column.isin(values)] on one cell. *)
Definition isin (a : cell) (values : list cell) : bool :=
  existsb (cell_eqb a) values.

(** The value of a group key: one text per key column. *)
Definition key : Type := list string.

Definition key_eq_dec (a b : key) : {a = b} + {a <> b} :=
  list_eq_dec string_dec a b.

Definition key_eqb (a b : key) : bool :=
  if key_eq_dec a b then true else false.

(** Lexicographic order on keys, column by column. *)
Fixpoint key_leb (a b : key) : bool :=
  match a, b with
  | [], _ => true
  | _ :: _, [] => false
  | x :: a', y :: b' =>
      match String.compare x y with
      | Lt => true
      | Gt => false
      | Eq => key_leb a' b'
      end
  end.

Fixpoint insert_key (k : key) (l : list key) : list key :=
  match l with
  | [] => [k]
  | k' :: l' => if key_leb k k' then k :: l else k' :: insert_key k l'
  end.

Definition sort_keys (l : list key) : list key :=
  fold_right insert_key [] l.

(** The key of a row under [groupby(cols)]: rows with a missing key cell
    belong to no group ([dropna=True]). *)
Fixpoint group_key (cols : list cell) : option key :=
  match cols with
  | [] => Some []
  | None :: _ => None
  | Some s :: rest =>
      match group_key rest with
      | Some k => Some (s :: k)
      | None => None
      end
  end.

Definition in_group {A} (keyof : A -> option key) (k : key) (r : A) : bool :=
  match keyof r with
  | Some k' => key_eqb k' k
  | None => false
  end.

(** The distinct group keys of a table, in the sorted order in which
    [groupby] lists its groups. *)
Definition group_keys {A} (keyof : A -> option key) (rows : list A) : list key :=
  sort_keys (nodup key_eq_dec
    (flat_map (fun r => match keyof r with Some k => [k] | None => [] end) rows)).

(** [df.groupby(cols)[col].agg().reset_index()]: one row per group. *)
Definition groupby {A B} (keyof : A -> option key) (agg : list A -> B)
    (rows : list A) : list (key * B) :=
  map (fun k => (k, agg (filter (in_group keyof k) rows)))
      (group_keys keyof rows).

(** [pd.merge(left, right, how='left')]: every left row, in order, once per
    matching right row, or once with the right columns missing. *)
Definition merge_left {A B C} (matches : A -> B -> bool)
    (joined : A -> option B -> C) (left : list A) (right : list B) : list C :=
  flat_map (fun a =>
              match filter (matches a) right with
              | [] => [joined a None]
              | bs => map (fun b => joined a (Some b)) bs
              end) left.

(** [pd.merge(left, right, on=keys, how='outer')] of two keyed tables: the
    union of the keys in lexicographic order; under each key the matching
    pairs, a side without a match being missing. *)
Definition merge_outer {B C} (left : list (key * B)) (right : list (key * C))
    : list (key * option B * option C) :=
  let keys := sort_keys (nodup key_eq_dec (map fst left ++ map fst right)) in
  flat_map (fun k =>
    let ls := filter (fun l => key_eqb (fst l) k) left in
    let rs := filter (fun r => key_eqb (fst r) k) right in
    match ls, rs with
    | [], _ => map (fun r => (k, None, Some (snd r))) rs
    | _, [] => map (fun l => (k, Some (snd l), None)) ls
    | _, _ => flat_map (fun l => map (fun r => (k, Some (snd l), Some (snd r))) rs) ls
    end) keys.

(** A numeric cell that a merge may have left missing. *)
Definition of_missing (x : option float) : float :=
  match x with Some v => v | None => F64.nan end.

(** ** Dates *)

(** A parsed ship date ([pd.to_datetime]); only its year and month are read.
    [None] is [NaT]. *)
Record Timestamp : Type := { ts_year : Z; ts_month : Z }.

Definition digit (n : Z) : ascii := ascii_of_nat (48 + Z.to_nat (n mod 10)).

Definition pad2 (n : Z) : string :=
  String (digit (n / 10)) (String (digit n) EmptyString).

Definition pad4 (n : Z) : string :=
  String (digit (n / 1000)) (String (digit (n / 100)) (pad2 n)).

(** [strftime('%Y-%m')] and [strftime('%m月')]. *)
Definition strftime_Y_m (d : Timestamp) : string :=
  (pad4 (ts_year d) ++ "-" ++ pad2 (ts_month d))%string.

Definition strftime_m_yue (d : Timestamp) : string :=
  (pad2 (ts_month d) ++ "月")%string.

Definition quarter_of (d : Timestamp) : Z := (ts_month d - 1) / 3 + 1.

(** The five columns that [load_data] derives from [发运月份]. *)
Record DateColumns : Type := {
  month : option Z;          (* 月份 *)
  year : option Z;           (* 年份 *)
  month_name : cell;         (* 月份名 *)
  quarter : option Z;        (* 季度 *)
  month_short : cell         (* 月度名称 *)
}.

Definition date_columns (d : option Timestamp) : DateColumns :=
  {| month := option_map ts_month d;
     year := option_map ts_year d;
     month_name := option_map strftime_Y_m d;
     quarter := option_map quarter_of d;
     month_short := option_map strftime_m_yue d |}.

(** ** The three source tables, as [pd.read_excel] returns them *)

(** A material dispatch line. *)
Record MaterialSource : Type := {
  ms_customer_code : cell;          (* 客户代码 *)
  ms_distributor : cell;            (* 经销商名称 *)
  ms_region : cell;                 (* 所属区域 *)
  ms_province : cell;               (* 省份 *)
  ms_product_code : cell;           (* 产品代码 *)
  ms_product_name : cell;           (* 产品名称 *)
  ms_ship_date : option Timestamp;  (* 发运月份 *)
  ms_quantity : float               (* 求和项:数量（箱） *)
}.

(** A sales line. *)
Record SalesSource : Type := {
  ss_customer_code : cell;          (* 客户代码 *)
  ss_distributor : cell;            (* 经销商名称 *)
  ss_region : cell;                 (* 所属区域 *)
  ss_province : cell;               (* 省份 *)
  ss_product_code : cell;           (* 产品代码 *)
  ss_ship_date : option Timestamp;  (* 发运月份 *)
  ss_quantity : float;              (* 求和项:数量（箱） *)
  ss_unit_price : float             (* 求和项:单价（箱） *)
}.

(** A line of the price list. *)
Record PriceRow : Type := {
  material_code : cell;             (* 物料代码 *)
  unit_price : float;               (* 单价（元） *)
  category : cell                   (* 物料类别 *)
}.

(** ** The tables [load_data] returns *)

(** A row of the enriched [material_data]. *)
Record Material : Type := {
  m_source : MaterialSource;
  m_dates : DateColumns;
  m_material_code : cell;           (* 物料代码 *)
  m_unit_price : float;             (* 单价（元） *)
  m_category : cell;                (* 物料类别 *)
  m_cost : float;                   (* 物料成本 *)
  m_efficiency : float              (* 单位使用效率 *)
}.

(** A row of the enriched [sales_data]. *)
Record Sales : Type := {
  s_source : SalesSource;
  s_dates : DateColumns;
  s_amount : float                  (* 销售金额 *)
}.

(** 客户价值分层. *)
Inductive Segment : Type :=
  | HighValue       (* 高价值客户 *)
  | Growth          (* 成长型客户 *)
  | Stable          (* 稳定型客户 *)
  | LowEfficiency.  (* 低效型客户 *)

Definition segment_label (s : Segment) : string :=
  match s with
  | HighValue => "高价值客户"
  | Growth => "成长型客户"
  | Stable => "稳定型客户"
  | LowEfficiency => "低效型客户"
  end.

Definition Segment_eq_dec (a b : Segment) : {a = b} + {a <> b}.
Proof. decide equality. Defined.

Definition segment_eqb (a b : Segment) : bool :=
  if Segment_eq_dec a b then true else false.

(** A row of [distributor_data] when [value_segment] is applied to it. *)
Record Aggregate : Type := {
  a_customer_code : string;         (* 客户代码 *)
  a_distributor : string;           (* 经销商名称 *)
  a_month_name : string;            (* 月份名 *)
  a_total_cost : float;             (* 物料总成本 *)
  a_total_sales : float;            (* 销售总额 *)
  a_ROI : float;                    (* ROI *)
  a_ratio : float                   (* 物料销售比率 *)
}.

(** A row of the returned [distributor_data]. *)
Record Distributor : Type := {
  d_customer_code : string;         (* 客户代码 *)
  d_distributor : string;           (* 经销商名称 *)
  d_month_name : string;            (* 月份名 *)
  d_total_cost : float;             (* 物料总成本 *)
  d_total_sales : float;            (* 销售总额 *)
  d_ROI : float;                    (* ROI *)
  d_ratio : float;                  (* 物料销售比率 *)
  d_segment : Segment;              (* 客户价值分层 *)
  d_diversity : float               (* 物料多样性 *)
}.

(** ** [load_data]: derivation, aggregation, segmentation *)

(** One row of [material_data] after the left join on the price list:
    the price is imputed, then cost and unit efficiency are derived. *)
Definition material_row (mean_price : float) (m : MaterialSource)
    (p : option PriceRow) : Material :=
  let price := fillna mean_price (of_missing (option_map unit_price p)) in
  let cost := F64.mul (ms_quantity m) price in
  {| m_source := m;
     m_dates := date_columns (ms_ship_date m);
     m_material_code := match p with Some p => material_code p | None => None end;
     m_unit_price := price;
     m_category := match p with Some p => category p | None => None end;
     m_cost := cost;
     m_efficiency :=
       fillna F64.zero (F64.div (ms_quantity m) (replace_zero_nan cost)) |}.

Definition mean_price (material_price : list PriceRow) : float :=
  mean_skipna (map unit_price material_price).

Definition material_data (source : list MaterialSource)
    (material_price : list PriceRow) : list Material :=
  merge_left (fun m p => cell_eqb (ms_product_code m) (material_code p))
             (material_row (mean_price material_price))
             source material_price.

Definition sales_row (s : SalesSource) : Sales :=
  {| s_source := s;
     s_dates := date_columns (ss_ship_date s);
     s_amount := F64.mul (ss_quantity s) (ss_unit_price s) |}.

Definition sales_data (source : list SalesSource) : list Sales :=
  map sales_row source.

(** The group key [客户代码, 经销商名称, 月份名] of either table. *)
Definition material_key (m : Material) : option key :=
  group_key [ms_customer_code (m_source m); ms_distributor (m_source m);
             month_name (m_dates m)].

Definition sales_key (s : Sales) : option key :=
  group_key [ss_customer_code (s_source s); ss_distributor (s_source s);
             month_name (s_dates s)].

Definition material_cost_by_distributor (material_data : list Material)
    : list (key * float) :=
  groupby material_key (fun g => sum_skipna (map m_cost g)) material_data.

Definition sales_by_distributor (sales_data : list Sales) : list (key * float) :=
  groupby sales_key (fun g => sum_skipna (map s_amount g)) sales_data.

(** One row of the outer join, after [fillna(0)] and with the two ratios. *)
Definition aggregate_row (j : key * option float * option float) : Aggregate :=
  let '(k, cost, sales) := j in
  let total_cost := fillna F64.zero (of_missing cost) in
  let total_sales := fillna F64.zero (of_missing sales) in
  {| a_customer_code := nth 0 k EmptyString;
     a_distributor := nth 1 k EmptyString;
     a_month_name := nth 2 k EmptyString;
     a_total_cost := total_cost;
     a_total_sales := total_sales;
     a_ROI := if F64.ltb F64.zero total_cost
              then F64.div total_sales total_cost else F64.zero;
     a_ratio := fillna F64.zero
                  (F64.mul (F64.div total_cost (replace_zero_nan total_sales))
                           F64.hundred) |}.

Definition aggregate (material_data : list Material) (sales_data : list Sales)
    : list Aggregate :=
  map aggregate_row
      (merge_outer (material_cost_by_distributor material_data)
                   (sales_by_distributor sales_data)).

(** The inner function of [load_data]; [distributor_data] is the whole
    aggregated table it closes over. *)
Definition value_segment (distributor_data : list Aggregate) (row : Aggregate)
    : Segment :=
  let sales_column := map a_total_sales distributor_data in
  if F64.leb F64.two (a_ROI row)
     && F64.ltb (quantile F64.three_quarters sales_column) (a_total_sales row)
  then HighValue
  else if F64.leb F64.one (a_ROI row)
          && F64.ltb (median sales_column) (a_total_sales row)
  then Growth
  else if F64.leb F64.one (a_ROI row) then Stable
  else LowEfficiency.

(** 物料多样性: distinct known product codes per [客户代码, 月份名]. *)
Definition diversity_key (m : Material) : option key :=
  group_key [ms_customer_code (m_source m); month_name (m_dates m)].

Definition nunique (cells : list cell) : float :=
  F64.of_Z (Z.of_nat (List.length
    (nodup string_dec
       (flat_map (fun c => match c with Some s => [s] | None => [] end) cells)))).

Definition material_diversity (material_data : list Material) : list (key * float) :=
  groupby diversity_key
          (fun g => nunique (map (fun m => ms_product_code (m_source m)) g))
          material_data.

Definition distributor_row (segment : Segment) (a : Aggregate)
    (d : option (key * float)) : Distributor :=
  {| d_customer_code := a_customer_code a;
     d_distributor := a_distributor a;
     d_month_name := a_month_name a;
     d_total_cost := a_total_cost a;
     d_total_sales := a_total_sales a;
     d_ROI := a_ROI a;
     d_ratio := a_ratio a;
     d_segment := segment;
     d_diversity := fillna F64.zero (of_missing (option_map snd d)) |}.

Definition distributor_data (material_data : list Material)
    (sales_data : list Sales) : list Distributor :=
  let aggregated := aggregate material_data sales_data in
  merge_left
    (fun a d => key_eqb (fst d) [a_customer_code a; a_month_name a])
    (fun a d => distributor_row (value_segment aggregated a) a d)
    aggregated (material_diversity material_data).

(** What [load_data] returns. *)
Record Loaded : Type := {
  ld_material_data : list Material;
  ld_sales_data : list Sales;
  ld_material_price : list PriceRow;
  ld_distributor_data : list Distributor
}.

(** The processing half of [load_data], from the three tables read. *)
Definition process (material_source : list MaterialSource)
    (sales_source : list SalesSource) (material_price : list PriceRow) : Loaded :=
  let material_data := material_data material_source material_price in
  let sales_data := sales_data sales_source in
  {| ld_material_data := material_data;
     ld_sales_data := sales_data;
     ld_material_price := material_price;
     ld_distributor_data := distributor_data material_data sales_data |}.

(** ** Loading: [load_from_github] and the first half of [load_data] *)

Inductive exn : Type := Exception (message : string).

(** A call that returns or raises. *)
Inductive result (A : Type) : Type :=
  | Ok (a : A)
  | Raise (e : exn).

Arguments Ok {A} a.
Arguments Raise {A} e.

Definition bind {A B} (r : result A) (f : A -> result B) : result B :=
  match r with
  | Ok a => f a
  | Raise e => Raise e
  end.

Notation "x <- r ;; k" := (bind r (fun x => k))
  (at level 61, r at next level, right associativity).

(** What a request for one raw file meets: [requests.get] raises, or it
    answers with a status and a body that [pd.read_excel] parses or not. *)
Inductive Remote (A : Type) : Type :=
  | RequestError (e : exn)
  | Response (status : Z) (body : result A).

Arguments RequestError {A} e.
Arguments Response {A} status body.

(** [response.raise_for_status()] raises on 4xx and 5xx. *)
Definition raise_for_status (status : Z) : bool :=
  (400 <=? status) && (status <? 600).

(** [load_from_github]: every failure is caught and turned into [None]. *)
Definition load_from_github {A} (r : Remote A) : option A :=
  match r with
  | RequestError _ => None
  | Response status body =>
      if raise_for_status status then None
      else match body with
           | Ok table => Some table
           | Raise _ => None
           end
  end.

(** The files as they are when [load_data] runs: the three remote ones and
    the three local ones ([pd.read_excel] on a local path returns or raises). *)
Record Files : Type := {
  github_material_data : Remote (list MaterialSource);
  github_sales_data : Remote (list SalesSource);
  github_material_price : Remote (list PriceRow);
  local_material_data : result (list MaterialSource);
  local_sales_data : result (list SalesSource);
  local_material_price : result (list PriceRow)
}.

Definition Tables : Type :=
  (list MaterialSource * list SalesSource * list PriceRow)%type.

(** The body of the [try]: the three remote loads, then the check that none
    of them is [None]. *)
Definition load_github (w : Files) : result Tables :=
  let material_data := load_from_github (github_material_data w) in
  let sales_data := load_from_github (github_sales_data w) in
  let material_price := load_from_github (github_material_price w) in
  match material_data, sales_data, material_price with
  | Some m, Some s, Some p => Ok (m, s, p)
  | _, _, _ => Raise (Exception "部分数据加载失败，将使用本地文件")
  end.

(** The [if not use_github] block: nothing is caught here. *)
Definition load_local (w : Files) : result Tables :=
  m <- local_material_data w ;;
  s <- local_sales_data w ;;
  p <- local_material_price w ;;
  Ok (m, s, p).

Definition load_tables (use_github : bool) (w : Files) : result Tables :=
  if use_github then
    match load_github w with
    | Ok tables => Ok tables
    | Raise _ => load_local w        (* except: use_github = False *)
    end
  else load_local w.

Definition load_data (use_github : bool) (w : Files) : result Loaded :=
  tables <- load_tables use_github w ;;
  let '(m, s, p) := tables in
  Ok (process m s p).

(** ** The filtering block of [main] *)

Record FilterSpec : Type := {
  selected_regions : list cell;
  selected_provinces : list cell;
  selected_month : cell;
  selected_categories : list cell;
  selected_segments : list Segment
}.

Definition filtered_material (f : FilterSpec) (material_data : list Material)
    : list Material :=
  filter (fun m => isin (m_category m) (selected_categories f))
    (filter (fun m =>
               isin (ms_region (m_source m)) (selected_regions f)
               && isin (ms_province (m_source m)) (selected_provinces f)
               && cell_is (month_name (m_dates m)) (selected_month f))
            material_data).

Definition filtered_sales (f : FilterSpec) (sales_data : list Sales) : list Sales :=
  filter (fun s =>
            isin (ss_region (s_source s)) (selected_regions f)
            && isin (ss_province (s_source s)) (selected_provinces f)
            && cell_is (month_name (s_dates s)) (selected_month f))
         sales_data.

(** [filtered_sales['客户代码'].unique()]. *)
Definition valid_distributors (filtered_sales : list Sales) : list cell :=
  nodup cell_eq_dec (map (fun s => ss_customer_code (s_source s)) filtered_sales).

Definition filtered_distributor (f : FilterSpec) (sales_data : list Sales)
    (distributor_data : list Distributor) : list Distributor :=
  let by_month :=
    filter (fun d => cell_is (Some (d_month_name d)) (selected_month f))
           distributor_data in
  let by_segment :=
    filter (fun d => existsb (segment_eqb (d_segment d)) (selected_segments f))
           by_month in
  filter (fun d => isin (Some (d_customer_code d))
                        (valid_distributors (filtered_sales f sales_data)))
         by_segment.

(** * Vocabulary of the properties *)

(** The row of a keyed table under a key, if any. *)
Definition lookup {B} (k : key) (table : list (key * B)) : option (key * B) :=
  find (fun r => key_eqb (fst r) k) table.

(** The keys of the outer join: those of either grouped table, sorted. *)
Definition aggregate_keys (material_data : list Material) (sales_data : list Sales)
    : list key :=
  sort_keys (nodup key_eq_dec
    (map fst (material_cost_by_distributor material_data)
     ++ map fst (sales_by_distributor sales_data))).

Definition aggregate_of_key (material_data : list Material)
    (sales_data : list Sales) (k : key) : Aggregate :=
  aggregate_row
    (k, option_map snd (lookup k (material_cost_by_distributor material_data)),
        option_map snd (lookup k (sales_by_distributor sales_data))).

Definition distributor_of_aggregate (md : list Material) (sd : list Sales)
    (a : Aggregate) : Distributor :=
  distributor_row (value_segment (aggregate md sd) a) a
    (lookup [a_customer_code a; a_month_name a] (material_diversity md)).

(** The rows of the final table carrying a given key triple or key pair. *)
Definition has_key (c n m : string) (d : Distributor) : bool :=
  String.eqb (d_customer_code d) c && String.eqb (d_distributor d) n
  && String.eqb (d_month_name d) m.

Definition has_pair (c m : string) (d : Distributor) : bool :=
  String.eqb (d_customer_code d) c && String.eqb (d_month_name d) m.

(** The two grouped tables and the final aggregate of a run. *)
Definition grouped_material (ms : list MaterialSource) (mp : list PriceRow)
    : list (key * float) :=
  material_cost_by_distributor (material_data ms mp).

Definition grouped_sales (ss : list SalesSource) : list (key * float) :=
  sales_by_distributor (sales_data ss).

Definition final_table (ms : list MaterialSource) (ss : list SalesSource)
    (mp : list PriceRow) : list Distributor :=
  ld_distributor_data (process ms ss mp).

(** The claim with (distributor code, month label) pairs as keys. *)
Definition one_row_per_pair (ms : list MaterialSource) (ss : list SalesSource)
    (mp : list PriceRow) : Prop :=
  forall c n m,
    In [c; n; m] (map fst (grouped_material ms mp))
    \/ In [c; n; m] (map fst (grouped_sales ss)) ->
    exists d, filter (has_pair c m) (final_table ms ss mp) = [d].

(** The last clause of the claim as stated: the three ratios are finite on
    every row. *)
Definition never_nan_or_infinite (ms : list MaterialSource)
    (ss : list SalesSource) (mp : list PriceRow) : Prop :=
  (forall d, In d (final_table ms ss mp) ->
     F64.is_finite (d_ROI d) = true /\ F64.is_finite (d_ratio d) = true)
  /\ (forall m, In m (material_data ms mp) ->
        F64.is_finite (m_efficiency m) = true).

(** The column of total sales of a final table and its two thresholds. *)
Definition sales_totals (t : list Distributor) : list float := map d_total_sales t.
Definition percentile_75 (t : list Distributor) : float :=
  quantile F64.three_quarters (sales_totals t).
Definition median_sales (t : list Distributor) : float := median (sales_totals t).

(** The decision list of the specification, first match wins: each rule
    applies only when every earlier one has failed. *)
Inductive segment_rule (p75 p50 roi sales : float) : Segment -> Prop :=
  | rule_high_value :
      F64.leb F64.two roi = true -> F64.ltb p75 sales = true ->
      segment_rule p75 p50 roi sales HighValue
  | rule_growth :
      ~ (F64.leb F64.two roi = true /\ F64.ltb p75 sales = true) ->
      F64.leb F64.one roi = true -> F64.ltb p50 sales = true ->
      segment_rule p75 p50 roi sales Growth
  | rule_stable :
      ~ (F64.leb F64.two roi = true /\ F64.ltb p75 sales = true) ->
      ~ (F64.leb F64.one roi = true /\ F64.ltb p50 sales = true) ->
      F64.leb F64.one roi = true ->
      segment_rule p75 p50 roi sales Stable
  | rule_low_efficiency :
      ~ (F64.leb F64.two roi = true /\ F64.ltb p75 sales = true) ->
      ~ (F64.leb F64.one roi = true /\ F64.ltb p50 sales = true) ->
      ~ F64.leb F64.one roi = true ->
      segment_rule p75 p50 roi sales LowEfficiency.

Definition roi_2_5 : float := F64.of_ratio 5 2.
Definition percent_80 : float := F64.of_ratio 4 5.

(** The rows of a table that share the month of [d]. *)
Definition same_month (d : Distributor) (t : list Distributor) : list Distributor :=
  filter (fun d' => String.eqb (d_month_name d') (d_month_name d)) t.

(** Scenario C as stated. *)
Definition scenario_C (t : list Distributor) : Prop :=
  forall d, In d t ->
    F64.eqb (d_ROI d) roi_2_5 = true ->
    F64.eqb (d_total_sales d)
            (quantile percent_80 (sales_totals (same_month d t))) = true ->
    d_segment d = HighValue.

(** The first half of the claim as stated. *)
Definition unit_price_never_null (ms : list MaterialSource) (mp : list PriceRow)
    : Prop :=
  forall m, In m (material_data ms mp) -> F64.isna (m_unit_price m) = false.

Definition three : float := F64.of_Z 3.
Definition one_tenth : float := F64.of_ratio 1 10.

(** The claim as stated, with [==] for "equals". *)
Definition efficiency_is_inverse_price (ms : list MaterialSource)
    (mp : list PriceRow) : Prop :=
  forall m, In m (material_data ms mp) ->
    F64.ltb F64.zero (ms_quantity (m_source m)) = true ->
    F64.isna (m_unit_price m) = false ->
    F64.eqb (m_unit_price m) F64.zero = false ->
    F64.eqb (m_efficiency m) (F64.div F64.one (m_unit_price m)) = true.

(** A remote file whose retrieval or parsing fails. *)
Inductive remote_failure {A : Type} : Remote A -> Prop :=
  | request_failed (e : exn) : remote_failure (RequestError e)
  | error_status (status : Z) (body : result A) :
      400 <= status < 600 -> remote_failure (Response status body)
  | unparsable (status : Z) (e : exn) : remote_failure (Response status (Raise e)).

(** ** Runs of the processing half of [load_data] *)

(** Strictly before, in the lexicographic order of the keys. *)
Definition key_lt (a b : key) : Prop := key_leb a b = true /\ a <> b.

(** What pandas documents of [df.groupby(cols)[col].agg().reset_index()]
    (with [sort=True] and [dropna=True], the defaults): the group keys come
    in increasing order, a key is listed when a row carries it, and its
    value is the aggregate of the rows of its group. *)
Definition groupby_contract {A B} (keyof : A -> option key) (agg : list A -> B)
    (rows : list A) (out : list (key * B)) : Prop :=
  StronglySorted key_lt (map fst out)
  /\ (forall k, In k (map fst out) <-> exists r, In r rows /\ keyof r = Some k)
  /\ (forall k v, In (k, v) out -> v = agg (filter (in_group keyof k) rows)).

(** What pandas documents of [pd.merge(left, right, on=keys, how='outer')]
    for two tables with one row per key, such as [groupby] returns: the keys
    of either table in increasing order, each with the value it has on
    either side. *)
Definition merge_outer_contract {B C} (left : list (key * B))
    (right : list (key * C)) (out : list (key * option B * option C)) : Prop :=
  StronglySorted key_lt (map (fun j => fst (fst j)) out)
  /\ (forall k, In k (map (fun j => fst (fst j)) out)
                <-> In k (map fst left) \/ In k (map fst right))
  /\ (forall k l r, In (k, l, r) out ->
        l = option_map snd (lookup k left)
        /\ r = option_map snd (lookup k right)).

(** The last steps of [load_data], from the outer join and the diversity
    table: [fillna(0)], the two ratios, the segments, and the left join on
    [客户代码, 月份名]. *)
Definition finish (joined : list (key * option float * option float))
    (diversity : list (key * float)) : list Distributor :=
  let aggregated := map aggregate_row joined in
  merge_left
    (fun a d => key_eqb (fst d) [a_customer_code a; a_month_name a])
    (fun a d => distributor_row (value_segment aggregated a) a d)
    aggregated diversity.

(** A run of the processing half of [load_data] on three tables.  The steps
    that work row by row, and the two left merges, which keep the order of
    their left table, are the functions above.  The three [groupby] calls
    and the outer [merge], which decide the rows and the row order of the
    aggregated table, may return any table that their contract allows. *)
Inductive pipeline_run (material_source : list MaterialSource)
    (sales_source : list SalesSource) (material_price : list PriceRow)
    : Loaded -> Prop :=
  | run (cost sales : list (key * float))
        (joined : list (key * option float * option float))
        (diversity : list (key * float)) :
      groupby_contract material_key (fun g => sum_skipna (map m_cost g))
        (material_data material_source material_price) cost ->
      groupby_contract sales_key (fun g => sum_skipna (map s_amount g))
        (sales_data sales_source) sales ->
      merge_outer_contract cost sales joined ->
      groupby_contract diversity_key
        (fun g => nunique (map (fun m => ms_product_code (m_source m)) g))
        (material_data material_source material_price) diversity ->
      pipeline_run material_source sales_source material_price
        {| ld_material_data := material_data material_source material_price;
           ld_sales_data := sales_data sales_source;
           ld_material_price := material_price;
           ld_distributor_data := finish joined diversity |}.

(** ** The numbers that binary64 values stand for *)

(** The rational number of a finite binary64 value. *)
Definition to_Q (x : float) : Q :=
  match x with
  | S754_finite s m e => ((if s then -1 else 1) * inject_Z (Zpos m) * 2 ^ e)%Q
  | _ => 0%Q
  end.

(** A normal number: finite, not zero, with a full 53-bit significand, which
    is what an operation returns when it neither overflows nor underflows. *)
Definition is_normal (x : float) : bool :=
  match SFclassify F64.prec x with
  | PNormal | NNormal => true
  | _ => false
  end.

(** The tolerance of the unit efficiency: 2^-50, four units in the last
    place of 1. *)
Definition tolerance : Q := (1 # 2 ^ 50)%Q.

(** * Sample inputs *)

Module Sample.

Definition jan : option Timestamp := Some {| ts_year := 2025; ts_month := 1 |}.
Definition feb : option Timestamp := Some {| ts_year := 2025; ts_month := 2 |}.

Definition dispatch (code name product : string) (d : option Timestamp)
    (boxes : float) : MaterialSource :=
  {| ms_customer_code := Some code; ms_distributor := Some name;
     ms_region := Some "East"%string; ms_province := Some "Zhejiang"%string;
     ms_product_code := Some product; ms_product_name := Some product;
     ms_ship_date := d; ms_quantity := boxes |}.

Definition sale (code name region : string) (d : option Timestamp)
    (boxes price : float) : SalesSource :=
  {| ss_customer_code := Some code; ss_distributor := Some name;
     ss_region := Some region; ss_province := Some "Zhejiang"%string;
     ss_product_code := Some "G1"%string;
     ss_ship_date := d; ss_quantity := boxes; ss_unit_price := price |}.

Definition price (code : string) (p : float) : PriceRow :=
  {| material_code := Some code; unit_price := p;
     category := Some "display"%string |}.

(** The row at a position of a final table. *)
Definition blank : Distributor :=
  distributor_row LowEfficiency (aggregate_row ([], None, None)) None.

Definition row (i : nat) (t : list Distributor) : Distributor := nth i t blank.

End Sample.

Module C1_data.
Import Sample.
Local Open Scope string_scope.

(** One distributor code spelled with two names in the same month. *)
Definition ms : list MaterialSource :=
  [dispatch "D001" "Hangzhou Trading" "P01" jan F64.one].
Definition ss : list SalesSource :=
  [sale "D001" "Hangzhou Trading Co" "East" jan F64.one F64.one].
Definition mp : list PriceRow := [price "P01" F64.one].
End C1_data.

Module C2_data.
Import Sample.
Local Open Scope string_scope.

(** 1e307 boxes at price 1 against sales of 1: cost / sales * 100 overflows. *)
Definition ms : list MaterialSource :=
  [dispatch "D001" "Hangzhou Trading" "P01" jan (F64.of_Z (10 ^ 307))].
Definition ss : list SalesSource :=
  [sale "D001" "Hangzhou Trading" "East" jan F64.one F64.one].
Definition mp : list PriceRow := [price "P01" F64.one].

(** 1e200 boxes at price 1e200 on both sides: both totals are infinite. *)
Definition huge : float := F64.of_Z (10 ^ 200).
Definition ms_inf : list MaterialSource :=
  [dispatch "D001" "Hangzhou Trading" "P01" jan huge].
Definition ss_inf : list SalesSource :=
  [sale "D001" "Hangzhou Trading" "East" jan huge huge].
Definition mp_inf : list PriceRow := [price "P01" huge].
End C2_data.

Module C7_data.
Import Sample.
Local Open Scope string_scope.

(** January: six distributors selling 1, 2, 3, 4, 10 and 20; Z sells 10,
    the 80th percentile of the month, on a material cost of 4 (ROI 2.5).
    February: two distributors selling 1000 each. *)
Definition ms : list MaterialSource :=
  [dispatch "Z" "Distributor Z" "P01" jan (F64.of_Z 4)].
Definition mp : list PriceRow := [price "P01" F64.one].
Definition ss_jan : list SalesSource :=
  [sale "A" "Distributor A" "East" jan (F64.of_Z 1) F64.one;
   sale "B" "Distributor B" "East" jan (F64.of_Z 2) F64.one;
   sale "C" "Distributor C" "East" jan (F64.of_Z 3) F64.one;
   sale "D" "Distributor D" "East" jan (F64.of_Z 4) F64.one;
   sale "Z" "Distributor Z" "East" jan (F64.of_Z 10) F64.one;
   sale "E" "Distributor E" "East" jan (F64.of_Z 20) F64.one].
Definition ss : list SalesSource :=
  ss_jan ++
  [sale "F" "Distributor F" "North" feb (F64.of_Z 1000) F64.one;
   sale "G" "Distributor G" "North" feb (F64.of_Z 1000) F64.one].

(** January, every region, province, category and segment selected. *)
Definition january : FilterSpec :=
  {| selected_regions := [Some "East"; Some "North"];
     selected_provinces := [Some "Zhejiang"];
     selected_month := Some "2025-01";
     selected_categories := [Some "display"];
     selected_segments := [HighValue; Growth; Stable; LowEfficiency] |}.
End C7_data.

Module C5_data.
Import Sample.
Local Open Scope string_scope.

(** Product Q07 is not in the price list. *)
Definition ms : list MaterialSource :=
  [dispatch "D001" "Hangzhou Trading" "Q07" jan (F64.of_Z 5)].
(** A price list with known prices 7 and 8. *)
Definition mp : list PriceRow := [price "P01" (F64.of_Z 7); price "P02" (F64.of_Z 8)].
(** A price list whose only price cell is empty. *)
Definition mp_blank : list PriceRow := [price "P01" F64.nan].
End C5_data.

Module C10_data.
Import Sample.
Local Open Scope string_scope.

(** Three boxes, respectively one box, of a material priced 0.1. *)
Definition ms : list MaterialSource :=
  [dispatch "D001" "Hangzhou Trading" "P01" jan three;
   dispatch "D002" "Ningbo Trading" "P01" jan F64.one].
Definition mp : list PriceRow := [price "P01" one_tenth].
Definition blank : Material :=
  material_row F64.nan (dispatch "" "" "" None F64.nan) None.

(** 3 * 2^-600 boxes of a material priced 2^-475: the cost, 3 * 2^-1075,
    is below the smallest positive binary64 number. *)
Definition ms_tiny : list MaterialSource :=
  [dispatch "D003" "Wenzhou Trading" "P09" jan
     (S754_finite false 6755399441055744 (-651))].
Definition mp_tiny : list PriceRow :=
  [price "P09" (S754_finite false 4503599627370496 (-527))].
End C10_data.

Module C6_data.
Import Sample.

(** The sales file answers 404; the local files are all readable. *)
Definition files : Files :=
  {| github_material_data := Response 200 (Ok C1_data.ms);
     github_sales_data := Response 404 (Raise (Exception "not found"));
     github_material_price := Response 200 (Ok C1_data.mp);
     local_material_data := Ok C7_data.ms;
     local_sales_data := Ok C7_data.ss;
     local_material_price := Ok C7_data.mp |}.

(** The same, with a local sales file that cannot be read. *)
Definition files_unreadable : Files :=
  {| github_material_data := Response 200 (Ok C1_data.ms);
     github_sales_data := Response 404 (Raise (Exception "not found"));
     github_material_price := Response 200 (Ok C1_data.mp);
     local_material_data := Ok C7_data.ms;
     local_sales_data := Raise (Exception "no such file");
     local_material_price := Ok C7_data.mp |}.
End C6_data.

(** * Properties *)

(** ** Keys, sorting and grouping *)

Lemma key_eqb_eq (a b : key) : key_eqb a b = true <-> a = b.
Proof.
  unfold key_eqb. destruct (key_eq_dec a b); split; congruence.
Qed.

Lemma key_eqb_refl (a : key) : key_eqb a a = true.
Proof. now apply key_eqb_eq. Qed.

Lemma cell_eqb_eq (a b : cell) : cell_eqb a b = true <-> a = b.
Proof.
  unfold cell_eqb. destruct (cell_eq_dec a b); split; congruence.
Qed.

Lemma isin_In (a : cell) (values : list cell) : isin a values = true <-> In a values.
Proof.
  unfold isin. rewrite existsb_exists. split.
  - intros [v [Hv E]]. apply cell_eqb_eq in E. now subst.
  - intros H. exists a. split; [assumption | now apply cell_eqb_eq].
Qed.

Lemma cell_is_eq (a v : cell) :
  cell_is a v = true <-> exists s, a = Some s /\ v = Some s.
Proof.
  destruct a as [x|], v as [y|]; simpl; split;
    try discriminate; try (intros [s [E1 E2]]; discriminate).
  - intros E. apply String.eqb_eq in E. subst. now exists y.
  - intros [s [E1 E2]]. injection E1 as ->. injection E2 as ->.
    apply String.eqb_refl.
Qed.

Lemma insert_key_perm (k : key) (l : list key) :
  Permutation (k :: l) (insert_key k l).
Proof.
  induction l as [|k' l IH]; simpl.
  - reflexivity.
  - destruct (key_leb k k').
    + reflexivity.
    + rewrite perm_swap. now apply perm_skip.
Qed.

Lemma sort_keys_perm (l : list key) : Permutation l (sort_keys l).
Proof.
  induction l as [|k l IH]; simpl.
  - constructor.
  - rewrite <- insert_key_perm. now apply perm_skip.
Qed.

Lemma In_sort_keys (k : key) (l : list key) : In k (sort_keys l) <-> In k l.
Proof.
  split; apply Permutation_in;
    [symmetry |]; apply sort_keys_perm.
Qed.

Lemma NoDup_sort_keys (l : list key) : NoDup l -> NoDup (sort_keys l).
Proof. apply Permutation_NoDup, sort_keys_perm. Qed.

Lemma group_key_length (cols : list cell) (k : key) :
  group_key cols = Some k -> List.length k = List.length cols.
Proof.
  revert k. induction cols as [|c cols IH]; simpl; intros k E.
  - now injection E as <-.
  - destruct c as [s|]; [|discriminate].
    destruct (group_key cols) as [k'|]; [|discriminate].
    injection E as <-. simpl. now rewrite (IH k').
Qed.

Section Grouping.

Context {A : Type} (keyof : A -> option key).

Lemma In_group_keys (rows : list A) (k : key) :
  In k (group_keys keyof rows) <-> exists r, In r rows /\ keyof r = Some k.
Proof.
  unfold group_keys. rewrite In_sort_keys, nodup_In, in_flat_map.
  split; intros [r [Hr H]]; exists r; split; trivial.
  - destruct (keyof r) as [k'|]; simpl in H; [|contradiction].
    destruct H as [-> | []]. reflexivity.
  - rewrite H. now left.
Qed.

Lemma NoDup_group_keys (rows : list A) : NoDup (group_keys keyof rows).
Proof. apply NoDup_sort_keys, NoDup_nodup. Qed.

Lemma groupby_keys {B} (agg : list A -> B) (rows : list A) :
  map fst (groupby keyof agg rows) = group_keys keyof rows.
Proof.
  unfold groupby. rewrite map_map. simpl. apply map_id.
Qed.

Lemma In_groupby {B} (agg : list A -> B) (rows : list A) (k : key) (v : B) :
  In (k, v) (groupby keyof agg rows) ->
  v = agg (filter (in_group keyof k) rows).
Proof.
  unfold groupby. rewrite in_map_iff. intros [k' [E _]].
  now injection E as <- <-.
Qed.

End Grouping.

(** ** Keyed tables with distinct keys *)

Lemma lookup_None {B} (k : key) (table : list (key * B)) :
  lookup k table = None <-> ~ In k (map fst table).
Proof.
  unfold lookup. induction table as [|[k' v] t IH]; simpl.
  - tauto.
  - destruct (key_eqb k' k) eqn:E.
    + apply key_eqb_eq in E. split; [discriminate | intros H; exfalso; auto].
    + rewrite IH. split; [|tauto].
      intros H [E' | H']; [|tauto]. subst. now rewrite key_eqb_refl in E.
Qed.

Lemma lookup_Some {B} (k : key) (table : list (key * B)) (r : key * B) :
  lookup k table = Some r -> In r table /\ fst r = k.
Proof.
  unfold lookup. intros H. apply find_some in H.
  now rewrite key_eqb_eq in H.
Qed.

Lemma filter_key_NoDup {B} (k : key) (table : list (key * B)) :
  NoDup (map fst table) ->
  filter (fun r => key_eqb (fst r) k) table =
  match lookup k table with Some r => [r] | None => [] end.
Proof.
  unfold lookup. induction table as [|[k' v] t IH]; simpl; intros ND.
  - reflexivity.
  - inversion ND as [|? ? Hk ND']; subst.
    destruct (key_eqb k' k) eqn:E.
    + apply key_eqb_eq in E. subst k'. f_equal.
      rewrite IH by assumption.
      destruct (find _ t) as [r|] eqn:F; [|reflexivity].
      apply find_some in F. destruct F as [Hin F]. apply key_eqb_eq in F.
      exfalso. apply Hk. rewrite <- F. now apply in_map.
    + now apply IH.
Qed.

Lemma flat_map_singleton {A B} (f : A -> list B) (g : A -> B) (l : list A) :
  (forall a, In a l -> f a = [g a]) -> flat_map f l = map g l.
Proof.
  induction l as [|a l IH]; simpl; intros H.
  - reflexivity.
  - rewrite (H a) by now left. simpl. f_equal. apply IH. intros; apply H; now right.
Qed.

(** With distinct keys on both sides the outer join has one row per key. *)
Lemma merge_outer_unique {B C} (left : list (key * B)) (right : list (key * C)) :
  NoDup (map fst left) -> NoDup (map fst right) ->
  merge_outer left right =
  map (fun k => (k, option_map snd (lookup k left), option_map snd (lookup k right)))
      (sort_keys (nodup key_eq_dec (map fst left ++ map fst right))).
Proof.
  intros NL NR. unfold merge_outer. apply flat_map_singleton.
  intros k Hk. rewrite In_sort_keys, nodup_In, in_app_iff in Hk.
  rewrite (filter_key_NoDup k left NL), (filter_key_NoDup k right NR).
  destruct (lookup k left) as [l|] eqn:EL, (lookup k right) as [r|] eqn:ER;
    simpl; try reflexivity.
  apply lookup_None in EL, ER. tauto.
Qed.

(** With distinct keys on the right, the left join keeps the left rows
    one for one. *)
Lemma merge_left_unique {A B C} (keyof : A -> key) (joined : A -> option (key * B) -> C)
    (left : list A) (right : list (key * B)) :
  NoDup (map fst right) ->
  merge_left (fun a r => key_eqb (fst r) (keyof a)) joined left right =
  map (fun a => joined a (lookup (keyof a) right)) left.
Proof.
  intros NR. unfold merge_left. apply flat_map_singleton.
  intros a _. rewrite (filter_key_NoDup (keyof a) right NR).
  now destruct (lookup (keyof a) right).
Qed.

Lemma In_merge_left {A B C} (matches : A -> B -> bool) (joined : A -> option B -> C)
    (left : list A) (right : list B) (c : C) :
  In c (merge_left matches joined left right) <->
  exists a, In a left /\
    ((c = joined a None /\ forall b, In b right -> matches a b = false) \/
     (exists b, In b right /\ matches a b = true /\ c = joined a (Some b))).
Proof.
  unfold merge_left. rewrite in_flat_map.
  split; intros [a [Ha H]]; exists a; split; trivial.
  - destruct (filter (matches a) right) as [|b0 bs] eqn:F.
    + destruct H as [<- | []]. left. split; [reflexivity|].
      intros b Hb. destruct (matches a b) eqn:E; [|reflexivity].
      assert (X : In b (filter (matches a) right)) by (apply filter_In; auto).
      rewrite F in X. contradiction.
    + right. apply in_map_iff in H. destruct H as [b [<- Hb]].
      rewrite <- F in Hb. apply filter_In in Hb. exists b. tauto.
  - destruct H as [[-> Hno] | [b [Hb [Hm ->]]]].
    + assert (F : filter (matches a) right = []).
      { destruct (filter (matches a) right) as [|b0 bs] eqn:F; [reflexivity|].
        assert (X : In b0 (filter (matches a) right)) by (rewrite F; now left).
        apply filter_In in X. destruct X as [X1 X2].
        rewrite (Hno b0 X1) in X2. discriminate. }
      rewrite F. now left.
    + assert (X : In b (filter (matches a) right)) by (apply filter_In; auto).
      destruct (filter (matches a) right) as [|b0 bs] eqn:F; [contradiction|].
      apply in_map_iff. exists b. auto.
Qed.

(** ** The shape of the aggregated table *)

Lemma NoDup_material_cost_keys (md : list Material) :
  NoDup (map fst (material_cost_by_distributor md)).
Proof.
  unfold material_cost_by_distributor. rewrite groupby_keys.
  apply NoDup_group_keys.
Qed.

Lemma NoDup_sales_keys (sd : list Sales) :
  NoDup (map fst (sales_by_distributor sd)).
Proof.
  unfold sales_by_distributor. rewrite groupby_keys. apply NoDup_group_keys.
Qed.

Lemma NoDup_diversity_keys (md : list Material) :
  NoDup (map fst (material_diversity md)).
Proof.
  unfold material_diversity. rewrite groupby_keys. apply NoDup_group_keys.
Qed.

Lemma aggregate_shape (md : list Material) (sd : list Sales) :
  aggregate md sd = map (aggregate_of_key md sd) (aggregate_keys md sd).
Proof.
  unfold aggregate.
  rewrite merge_outer_unique
    by (apply NoDup_material_cost_keys || apply NoDup_sales_keys).
  now rewrite map_map.
Qed.

Lemma distributor_data_shape (md : list Material) (sd : list Sales) :
  distributor_data md sd = map (distributor_of_aggregate md sd) (aggregate md sd).
Proof.
  unfold distributor_data.
  rewrite (merge_left_unique (fun a => [a_customer_code a; a_month_name a]))
    by apply NoDup_diversity_keys.
  reflexivity.
Qed.

Lemma NoDup_aggregate_keys (md : list Material) (sd : list Sales) :
  NoDup (aggregate_keys md sd).
Proof. apply NoDup_sort_keys, NoDup_nodup. Qed.

Lemma In_aggregate_keys (md : list Material) (sd : list Sales) (k : key) :
  In k (aggregate_keys md sd) <->
  In k (map fst (material_cost_by_distributor md))
  \/ In k (map fst (sales_by_distributor sd)).
Proof.
  unfold aggregate_keys. now rewrite In_sort_keys, nodup_In, in_app_iff.
Qed.

(** Every key of the aggregate has the three columns of the grouping. *)
Lemma aggregate_keys_three (md : list Material) (sd : list Sales) (k : key) :
  In k (aggregate_keys md sd) ->
  exists c n m, k = [c; n; m].
Proof.
  rewrite In_aggregate_keys.
  unfold material_cost_by_distributor, sales_by_distributor.
  rewrite !groupby_keys, !In_group_keys.
  intros [[r [_ E]] | [r [_ E]]]; apply group_key_length in E; simpl in E;
    destruct k as [|c [|n [|m [|x k]]]]; try discriminate; eauto.
Qed.

Lemma filter_map_comm {A B} (f : A -> B) (p : B -> bool) (l : list A) :
  filter p (map f l) = map f (filter (fun a => p (f a)) l).
Proof.
  induction l as [|a l IH]; simpl; [reflexivity|].
  rewrite IH. now destruct (p (f a)).
Qed.

Lemma filter_key_single (k : key) (l : list key) :
  NoDup l -> In k l -> filter (fun x => key_eqb x k) l = [k].
Proof.
  induction l as [|x l IH]; simpl; intros ND H; [contradiction|].
  inversion ND as [|? ? Hx ND']; subst.
  destruct (key_eqb x k) eqn:E.
  - apply key_eqb_eq in E. subst x. f_equal.
    destruct (filter (fun x => key_eqb x k) l) as [|y ys] eqn:F; [reflexivity|].
    assert (X : In y (filter (fun x => key_eqb x k) l)) by (rewrite F; now left).
    apply filter_In in X. destruct X as [X1 X2]. apply key_eqb_eq in X2.
    subst y. contradiction.
  - destruct H as [-> | H]; [now rewrite key_eqb_refl in E | now apply IH].
Qed.

Lemma has_key_of_key (md : list Material) (sd : list Sales) (c n m : string) (k : key) :
  In k (aggregate_keys md sd) ->
  has_key c n m (distributor_of_aggregate md sd (aggregate_of_key md sd k))
  = key_eqb k [c; n; m].
Proof.
  intros Hk. destruct (aggregate_keys_three md sd k Hk) as [c' [n' [m' ->]]].
  unfold has_key. simpl.
  destruct (key_eqb [c'; n'; m'] [c; n; m]) eqn:E.
  - apply key_eqb_eq in E. injection E as -> -> ->.
    now rewrite !String.eqb_refl.
  - destruct (String.eqb_spec c' c), (String.eqb_spec n' n),
      (String.eqb_spec m' m); simpl; try reflexivity.
    subst. now rewrite key_eqb_refl in E.
Qed.

Lemma rows_of_key (md : list Material) (sd : list Sales) (c n m : string) :
  In [c; n; m] (aggregate_keys md sd) ->
  filter (has_key c n m) (distributor_data md sd)
  = [distributor_of_aggregate md sd (aggregate_of_key md sd [c; n; m])].
Proof.
  intros Hk.
  rewrite distributor_data_shape, aggregate_shape, map_map, filter_map_comm.
  rewrite (filter_ext_in _ (fun k => key_eqb k [c; n; m])).
  - now rewrite filter_key_single by (apply NoDup_aggregate_keys || assumption).
  - intros k Hin. now apply has_key_of_key.
Qed.

(** ** Outer-join completeness (C1) *)

Lemma lookup_In {B} (k : key) (v : B) (table : list (key * B)) :
  NoDup (map fst table) -> In (k, v) table -> lookup k table = Some (k, v).
Proof.
  intros ND H.
  assert (X : In (k, v) (filter (fun r => key_eqb (fst r) k) table)).
  { apply filter_In. split; [assumption | apply key_eqb_refl]. }
  rewrite (filter_key_NoDup k table ND) in X.
  destruct (lookup k table) as [r|]; [|contradiction].
  destruct X as [-> | []]. reflexivity.
Qed.

(** C1, amended: the aggregate is keyed by (distributor code, distributor
    name, month label).  Every such triple that appears in the grouped
    material-cost table or in the grouped sales table has exactly one row in
    the final distributor-period table; a side on which the triple is missing
    has total 0, and a side on which it is present carries that side's
    grouped total (a null total being filled with 0). *)
Theorem one_row_per_key :
  forall (ms : list MaterialSource) (ss : list SalesSource) (mp : list PriceRow)
         (c n m : string),
    In [c; n; m] (map fst (grouped_material ms mp))
    \/ In [c; n; m] (map fst (grouped_sales ss)) ->
    exists d,
      filter (has_key c n m) (final_table ms ss mp) = [d]
      /\ (~ In [c; n; m] (map fst (grouped_material ms mp)) ->
          d_total_cost d = F64.zero)
      /\ (~ In [c; n; m] (map fst (grouped_sales ss)) ->
          d_total_sales d = F64.zero)
      /\ (forall v, In ([c; n; m], v) (grouped_material ms mp) ->
          d_total_cost d = fillna F64.zero v)
      /\ (forall v, In ([c; n; m], v) (grouped_sales ss) ->
          d_total_sales d = fillna F64.zero v).
Proof.
  intros ms ss mp c n m H.
  unfold grouped_material, grouped_sales, final_table in *. simpl in *.
  set (md := material_data ms mp) in *. set (sd := sales_data ss) in *.
  apply In_aggregate_keys in H.
  exists (distributor_of_aggregate md sd (aggregate_of_key md sd [c; n; m])).
  split; [now apply rows_of_key|].
  repeat split.
  - intros Hno. apply lookup_None in Hno. simpl.
    now rewrite Hno.
  - intros Hno. apply lookup_None in Hno. simpl.
    now rewrite Hno.
  - intros v Hv. simpl.
    now rewrite (lookup_In _ _ _ (NoDup_material_cost_keys md) Hv).
  - intros v Hv. simpl.
    now rewrite (lookup_In _ _ _ (NoDup_sales_keys sd) Hv).
Qed.

Lemma one_row_per_key_witness :
  exists d,
    filter (has_key "D001" "Hangzhou Trading" "2025-01")
           (final_table C1_data.ms C1_data.ss C1_data.mp) = [d]
    /\ d_total_sales d = F64.zero.
Proof.
  destruct (one_row_per_key C1_data.ms C1_data.ss C1_data.mp
              "D001" "Hangzhou Trading" "2025-01") as [d [H1 [_ [H2 _]]]].
  - left. vm_compute. auto.
  - exists d. split; [exact H1|]. apply H2. vm_compute. intuition discriminate.
Defined.

(** C1 as stated fails: the pair (D001, 2025-01) has two rows, one per name. *)
Lemma one_row_per_pair_fails :
  ~ one_row_per_pair C1_data.ms C1_data.ss C1_data.mp.
Proof.
  intros H.
  destruct (H "D001" "Hangzhou Trading" "2025-01")%string as [d Hd].
  - left. vm_compute. auto.
  - vm_compute in Hd. discriminate.
Qed.

(** ** binary64 facts used below *)

Ltac unfold_compare :=
  cbv [F64.eqb F64.ltb F64.leb SFeqb SFltb SFleb SFcompare F64.zero F64.nan
       F64.isna F64.is_inf].

Lemma eqb_zero_not_positive (x : float) :
  F64.eqb x F64.zero = true -> F64.ltb F64.zero x = false.
Proof.
  destruct x as [s|s| |s m e]; unfold_compare;
    try reflexivity; destruct s; discriminate.
Qed.

Lemma div_nan_r (x : float) : F64.div x F64.nan = F64.nan.
Proof. now destruct x. Qed.

Lemma mul_nan_l (x : float) : F64.mul F64.nan x = F64.nan.
Proof. reflexivity. Qed.

Lemma fillna_zero_not_nan (x : float) : F64.isna (fillna F64.zero x) = false.
Proof. unfold fillna. now destruct x. Qed.

Lemma replace_zero_nan_zero (x : float) :
  F64.eqb x F64.zero = true -> replace_zero_nan x = F64.nan.
Proof. unfold replace_zero_nan. now intros ->. Qed.

Lemma shr_1_nonneg (mrs : shr_record) :
  0 <= shr_m mrs -> 0 <= shr_m (shr_1 mrs).
Proof.
  destruct mrs as [m r s]. simpl.
  destruct m as [|p|p]; [| destruct p | destruct p]; simpl; lia.
Qed.

Lemma iter_shr_1_nonneg (p : positive) :
  forall mrs, 0 <= shr_m mrs -> 0 <= shr_m (iter_pos shr_1 p mrs).
Proof.
  induction p as [p IH|p IH|]; simpl; intros mrs H.
  - apply IH, IH, shr_1_nonneg, H.
  - apply IH, IH, H.
  - apply shr_1_nonneg, H.
Qed.

Lemma shr_fexp_nonneg (m e : Z) (l : location) :
  0 <= m -> 0 <= shr_m (fst (shr_fexp F64.prec F64.emax m e l)).
Proof.
  intros H. unfold shr_fexp, shr.
  assert (H0 : 0 <= shr_m (shr_record_of_loc m l))
    by (destruct l as [|[]]; exact H).
  destruct (_ - e); simpl; trivial. now apply iter_shr_1_nonneg.
Qed.

Lemma round_nearest_even_nonneg (m : Z) (l : location) :
  0 <= m -> 0 <= round_nearest_even m l.
Proof.
  intros H. destruct l as [|[]]; simpl; try lia.
  destruct (Z.even m); lia.
Qed.

(** Rounding a non-negative mantissa never makes a NaN. *)
Lemma binary_round_aux_not_nan (s : bool) (m e : Z) (l : location) :
  0 <= m -> F64.isna (binary_round_aux F64.prec F64.emax s m e l) = false.
Proof.
  intros H. unfold binary_round_aux.
  pose proof (shr_fexp_nonneg m e l H) as H1.
  destruct (shr_fexp F64.prec F64.emax m e l) as [mrs' e'].
  simpl in H1.
  pose proof (shr_fexp_nonneg _ e' loc_Exact
    (round_nearest_even_nonneg _ (loc_of_shr_record mrs') H1)) as H2.
  destruct (shr_fexp F64.prec F64.emax _ e' loc_Exact) as [mrs'' e''].
  simpl in H2.
  destruct (shr_m mrs'') as [|p|p]; [reflexivity | | lia].
  now destruct (e'' <=? _).
Qed.

Lemma div_core_nonneg (m1 m2 : positive) (e1 e2 : Z) :
  0 <= fst (fst (SFdiv_core_binary F64.prec F64.emax (Zpos m1) e1 (Zpos m2) e2)).
Proof.
  unfold SFdiv_core_binary.
  set (s := _ - _ - Z.min _ _).
  set (m' := match s with Zpos _ => Z.shiftl (Zpos m1) s | Z0 => Zpos m1 | Zneg _ => 0 end).
  assert (Hm : 0 <= m').
  { subst m'. destruct s; try lia. apply Z.shiftl_nonneg. lia. }
  pose proof (Z.div_pos m' (Zpos m2) Hm ltac:(lia)) as Hq.
  unfold Z.div in Hq.
  destruct (Z.div_eucl m' (Zpos m2)) as [q r]. exact Hq.
Qed.

(** A quotient is NaN only for a NaN operand, inf/inf or 0/0. *)
Lemma div_nan_inv (x y : float) :
  F64.isna (F64.div x y) = true ->
  F64.isna x = true \/ F64.isna y = true
  \/ (F64.is_inf x = true /\ F64.is_inf y = true)
  \/ (F64.eqb x F64.zero = true /\ F64.eqb y F64.zero = true).
Proof.
  destruct x as [sx|sx| |sx mx ex], y as [sy|sy| |sy my ey]; simpl;
    intros H; try discriminate;
    try (left; reflexivity); try (right; left; reflexivity);
    try (right; right; left; split; reflexivity);
    try (right; right; right; split; reflexivity).
  exfalso. revert H. unfold F64.div, SFdiv.
  pose proof (div_core_nonneg mx my ex ey) as H.
  destruct (SFdiv_core_binary _ _ _ _ _ _) as [[mz ez] lz]. simpl in H.
  now rewrite binary_round_aux_not_nan.
Qed.

Lemma ltb_zero_cases (x : float) :
  F64.ltb F64.zero x = true ->
  F64.isna x = false /\ F64.eqb x F64.zero = false.
Proof.
  destruct x as [s|s| |s m e]; unfold_compare; try discriminate;
    destruct s; try discriminate; auto.
Qed.

(** ** Zero-safe ratios (C2) *)

Lemma In_distributor_data (md : list Material) (sd : list Sales) (d : Distributor) :
  In d (distributor_data md sd) ->
  exists a, In a (aggregate md sd) /\ d = distributor_of_aggregate md sd a.
Proof.
  rewrite distributor_data_shape, in_map_iff. intros [a [E H]]. eauto.
Qed.

Lemma In_aggregate (md : list Material) (sd : list Sales) (a : Aggregate) :
  In a (aggregate md sd) -> exists j, a = aggregate_row j.
Proof.
  unfold aggregate. rewrite in_map_iff. intros [j [E _]]. eauto.
Qed.

Lemma In_material_data (ms : list MaterialSource) (mp : list PriceRow) (m : Material) :
  In m (material_data ms mp) ->
  exists src, In src ms /\
    ((m = material_row (mean_price mp) src None
      /\ forall p, In p mp -> material_code p <> ms_product_code src)
     \/ exists p, In p mp /\ material_code p = ms_product_code src
                  /\ m = material_row (mean_price mp) src (Some p)).
Proof.
  unfold material_data. rewrite In_merge_left.
  intros [src [Hs H]]. exists src. split; [assumption|].
  destruct H as [[-> Hno] | [p [Hp [Hm ->]]]].
  - left. split; [reflexivity|]. intros p Hp E.
    specialize (Hno p Hp). simpl in Hno.
    assert (X : cell_eqb (ms_product_code src) (material_code p) = true)
      by now apply cell_eqb_eq.
    congruence.
  - right. exists p. apply cell_eqb_eq in Hm. auto.
Qed.

Lemma aggregate_row_ratios (j : key * option float * option float) :
  (F64.eqb (a_total_cost (aggregate_row j)) F64.zero = true ->
   a_ROI (aggregate_row j) = F64.zero)
  /\ (F64.eqb (a_total_sales (aggregate_row j)) F64.zero = true ->
      a_ratio (aggregate_row j) = F64.zero)
  /\ F64.isna (a_ratio (aggregate_row j)) = false
  /\ (F64.isna (a_ROI (aggregate_row j)) = true ->
      F64.is_inf (a_total_cost (aggregate_row j)) = true
      /\ F64.is_inf (a_total_sales (aggregate_row j)) = true).
Proof.
  destruct j as [[k cost] sales]. simpl.
  set (c := fillna F64.zero (of_missing cost)).
  set (s := fillna F64.zero (of_missing sales)).
  split; [|split; [|split]].
  - intros H. now rewrite (eqb_zero_not_positive c H).
  - intros H. now rewrite (replace_zero_nan_zero s H), div_nan_r, mul_nan_l.
  - apply fillna_zero_not_nan.
  - destruct (F64.ltb F64.zero c) eqn:L; [|discriminate].
    intros N. apply ltb_zero_cases in L. destruct L as [L1 L2].
    apply div_nan_inv in N.
    assert (Hs : F64.isna s = false) by apply fillna_zero_not_nan.
    destruct N as [N | [N | [[N1 N2] | [N1 N2]]]]; try congruence.
    now split.
Qed.

Lemma material_row_efficiency (mean : float) (src : MaterialSource)
    (p : option PriceRow) :
  (F64.eqb (m_cost (material_row mean src p)) F64.zero = true ->
   m_efficiency (material_row mean src p) = F64.zero)
  /\ F64.isna (m_efficiency (material_row mean src p)) = false.
Proof.
  simpl. split.
  - intros H. now rewrite (replace_zero_nan_zero _ H), div_nan_r.
  - apply fillna_zero_not_nan.
Qed.

(** C2, amended: on every row of the aggregated table a total material cost
    equal to 0 gives ROI 0 and a total sales equal to 0 gives material-sales
    ratio 0; on every enriched material row a material cost equal to 0 gives
    unit efficiency 0.  The ratio and the unit efficiency are never NaN, and
    ROI is NaN only when both totals are infinite.  (Nothing is said about
    infinity: a quotient that overflows binary64 is infinite.) *)
Theorem zero_safe_ratios :
  forall (ms : list MaterialSource) (ss : list SalesSource) (mp : list PriceRow),
    (forall d, In d (final_table ms ss mp) ->
       (F64.eqb (d_total_cost d) F64.zero = true -> d_ROI d = F64.zero)
       /\ (F64.eqb (d_total_sales d) F64.zero = true -> d_ratio d = F64.zero)
       /\ F64.isna (d_ratio d) = false
       /\ (F64.isna (d_ROI d) = true ->
           F64.is_inf (d_total_cost d) = true
           /\ F64.is_inf (d_total_sales d) = true))
    /\ (forall m, In m (material_data ms mp) ->
          (F64.eqb (m_cost m) F64.zero = true -> m_efficiency m = F64.zero)
          /\ F64.isna (m_efficiency m) = false).
Proof.
  intros ms ss mp. split.
  - intros d Hd. unfold final_table in Hd. simpl in Hd.
    apply In_distributor_data in Hd. destruct Hd as [a [Ha ->]].
    apply In_aggregate in Ha. destruct Ha as [j ->].
    exact (aggregate_row_ratios j).
  - intros m Hm. apply In_material_data in Hm.
    destruct Hm as [src [_ [[-> _] | [p [_ [_ ->]]]]]];
      apply material_row_efficiency.
Qed.

Lemma zero_safe_ratios_witness :
  exists d, In d (final_table C1_data.ms C1_data.ss C1_data.mp)
            /\ F64.eqb (d_total_cost d) F64.zero = true
            /\ d_ROI d = F64.zero.
Proof.
  assert (H : exists d, In d (final_table C1_data.ms C1_data.ss C1_data.mp)
                        /\ F64.eqb (d_total_cost d) F64.zero = true).
  { vm_compute. eexists. split; [right; left; reflexivity | reflexivity]. }
  destruct H as [d [Hd Hz]]. exists d. split; [exact Hd|]. split; [exact Hz|].
  apply (proj1 (zero_safe_ratios C1_data.ms C1_data.ss C1_data.mp) d Hd).
  exact Hz.
Defined.

(** C2 as stated fails: the material-sales ratio of this row is infinite. *)
Lemma never_nan_or_infinite_fails :
  ~ never_nan_or_infinite C2_data.ms C2_data.ss C2_data.mp.
Proof.
  intros [H _].
  assert (Hin : exists d, In d (final_table C2_data.ms C2_data.ss C2_data.mp)
                          /\ F64.is_finite (d_ratio d) = false).
  { vm_compute. eexists. split; [left; reflexivity | reflexivity]. }
  destruct Hin as [d [Hd Hf]]. destruct (H d Hd) as [_ H2]. congruence.
Qed.

(** With both totals infinite the ROI itself is NaN. *)
Example roi_nan_when_both_totals_infinite :
  map d_ROI (final_table C2_data.ms_inf C2_data.ss_inf C2_data.mp_inf) = [F64.nan].
Proof. vm_compute. reflexivity. Qed.

(** ** Segmentation (C3, C4, C7) *)

Lemma value_segment_rule (table : list Aggregate) (row : Aggregate) :
  segment_rule (quantile F64.three_quarters (map a_total_sales table))
               (median (map a_total_sales table))
               (a_ROI row) (a_total_sales row) (value_segment table row).
Proof.
  unfold value_segment.
  destruct (F64.leb F64.two (a_ROI row)) eqn:R2,
           (F64.ltb (quantile _ _) (a_total_sales row)) eqn:Q,
           (F64.leb F64.one (a_ROI row)) eqn:R1,
           (F64.ltb (median _) (a_total_sales row)) eqn:M; simpl;
    constructor; intuition congruence.
Qed.

Lemma segment_rule_functional (p75 p50 roi sales : float) (s1 s2 : Segment) :
  segment_rule p75 p50 roi sales s1 -> segment_rule p75 p50 roi sales s2 ->
  s1 = s2.
Proof.
  intros H1 H2. inversion H1; inversion H2; subst; tauto.
Qed.

Lemma sales_totals_aggregate (md : list Material) (sd : list Sales) :
  sales_totals (distributor_data md sd) = map a_total_sales (aggregate md sd).
Proof.
  unfold sales_totals. rewrite distributor_data_shape, map_map.
  apply map_ext. reflexivity.
Qed.

Lemma final_row_rule (md : list Material) (sd : list Sales) (d : Distributor) :
  In d (distributor_data md sd) ->
  segment_rule (percentile_75 (distributor_data md sd))
               (median_sales (distributor_data md sd))
               (d_ROI d) (d_total_sales d) (d_segment d).
Proof.
  intros Hd. unfold percentile_75, median_sales.
  rewrite sales_totals_aggregate.
  apply In_distributor_data in Hd. destruct Hd as [a [_ ->]].
  apply value_segment_rule.
Qed.

(** C3: every row of the aggregated table is labelled by the first matching
    rule of: high-value when ROI >= 2.0 and total sales > the 75th percentile
    of total sales; growth when ROI >= 1.0 and total sales > the median;
    stable when ROI >= 1.0; low-efficiency otherwise.  The label is the only
    one the rules allow. *)
Theorem value_segment_first_match :
  forall (ms : list MaterialSource) (ss : list SalesSource) (mp : list PriceRow)
         (d : Distributor),
    In d (final_table ms ss mp) ->
    segment_rule (percentile_75 (final_table ms ss mp))
                 (median_sales (final_table ms ss mp))
                 (d_ROI d) (d_total_sales d) (d_segment d)
    /\ forall s,
         segment_rule (percentile_75 (final_table ms ss mp))
                      (median_sales (final_table ms ss mp))
                      (d_ROI d) (d_total_sales d) s ->
         s = d_segment d.
Proof.
  intros ms ss mp d Hd.
  pose proof (final_row_rule _ _ d Hd) as H.
  split; [exact H|].
  intros s Hs. exact (segment_rule_functional _ _ _ _ _ _ Hs H).
Qed.

Lemma In_final_key (md : list Material) (sd : list Sales) (d : Distributor) :
  In d (distributor_data md sd) ->
  In [d_customer_code d; d_distributor d; d_month_name d] (aggregate_keys md sd)
  /\ filter (has_key (d_customer_code d) (d_distributor d) (d_month_name d))
            (distributor_data md sd) = [d].
Proof.
  intros Hd.
  rewrite distributor_data_shape, aggregate_shape, map_map, in_map_iff in Hd.
  destruct Hd as [k [<- Hk]].
  destruct (aggregate_keys_three md sd k Hk) as [c [n [m ->]]].
  simpl. split; [assumption|]. now apply rows_of_key.
Qed.

Lemma filtered_distributor_incl (f : FilterSpec) (sd : list Sales)
    (t : list Distributor) (d : Distributor) :
  In d (filtered_distributor f sd t) -> In d t.
Proof.
  unfold filtered_distributor. rewrite !filter_In. tauto.
Qed.

(** C4: for every filter specification, a row that survives the filtering is
    a row of the unfiltered table, the only one under its key there, so it
    carries the label it was given on the unfiltered table; and that label is
    the one the rules give with the 75th percentile and the median of total
    sales taken over the whole unfiltered table. *)
Theorem segment_unchanged_by_filtering :
  forall (ms : list MaterialSource) (ss : list SalesSource) (mp : list PriceRow)
         (f : FilterSpec) (d : Distributor),
    In d (filtered_distributor f (sales_data ss) (final_table ms ss mp)) ->
    In d (final_table ms ss mp)
    /\ filter (has_key (d_customer_code d) (d_distributor d) (d_month_name d))
              (final_table ms ss mp) = [d]
    /\ segment_rule (percentile_75 (final_table ms ss mp))
                    (median_sales (final_table ms ss mp))
                    (d_ROI d) (d_total_sales d) (d_segment d).
Proof.
  intros ms ss mp f d Hd. apply filtered_distributor_incl in Hd.
  split; [exact Hd|]. split.
  - apply (In_final_key _ _ d Hd).
  - apply (final_row_rule _ _ d Hd).
Qed.

Lemma eqb_finite_eq (x : float) (s : bool) (m : positive) (e : Z) :
  F64.eqb x (S754_finite s m e) = true -> x = S754_finite s m e.
Proof.
  destruct x as [sx|sx| |sx mx ex]; unfold_compare;
    try discriminate; try (destruct sx; discriminate);
    try (destruct s; discriminate).
  destruct sx, s; try discriminate;
    destruct (Z.compare_spec ex e) as [-> | |]; try discriminate;
    destruct (Pos.compare_cont Eq mx m) eqn:C; try discriminate;
    intros _; apply (Pos.compare_eq mx m) in C; now subst.
Qed.

(** C7, amended: a row with ROI = 2.5 whose total sales strictly exceed the
    75th percentile of total sales over the whole aggregated table (all
    months together) is labelled high-value. *)
Theorem roi_2_5_above_global_percentile_75 :
  forall (ms : list MaterialSource) (ss : list SalesSource) (mp : list PriceRow)
         (d : Distributor),
    In d (final_table ms ss mp) ->
    F64.eqb (d_ROI d) roi_2_5 = true ->
    F64.ltb (percentile_75 (final_table ms ss mp)) (d_total_sales d) = true ->
    d_segment d = HighValue.
Proof.
  intros ms ss mp d Hd Hroi Hsales.
  pose proof (final_row_rule _ _ d Hd) as H.
  apply eqb_finite_eq in Hroi.
  assert (R2 : F64.leb F64.two (d_ROI d) = true) by now rewrite Hroi.
  inversion H; try reflexivity; tauto.
Qed.

Lemma roi_2_5_above_global_percentile_75_witness :
  d_customer_code (Sample.row 5 (final_table C7_data.ms C7_data.ss_jan C7_data.mp))
  = "Z"%string
  /\ d_segment (Sample.row 5 (final_table C7_data.ms C7_data.ss_jan C7_data.mp))
     = HighValue.
Proof.
  split; [vm_compute; reflexivity|].
  apply (roi_2_5_above_global_percentile_75 C7_data.ms C7_data.ss_jan C7_data.mp).
  - vm_compute. do 5 right. left. reflexivity.
  - vm_compute. reflexivity.
  - vm_compute. reflexivity.
Defined.

(** C7 as stated fails: Z has ROI 2.5 and sells exactly the 80th percentile
    of January, yet the 75th percentile over both months is 265 and Z is
    labelled growth. *)
Lemma scenario_C_fails :
  ~ scenario_C (final_table C7_data.ms C7_data.ss C7_data.mp).
Proof.
  intros H.
  specialize (H (Sample.row 7 (final_table C7_data.ms C7_data.ss C7_data.mp))).
  assert (X : d_segment
                (Sample.row 7 (final_table C7_data.ms C7_data.ss C7_data.mp))
              = Growth) by (vm_compute; reflexivity).
  rewrite H in X; [discriminate | | |].
  - vm_compute. do 7 right. left. reflexivity.
  - vm_compute. reflexivity.
  - vm_compute. reflexivity.
Qed.

Lemma value_segment_first_match_witness :
  segment_rule
    (percentile_75 (final_table C7_data.ms C7_data.ss C7_data.mp))
    (median_sales (final_table C7_data.ms C7_data.ss C7_data.mp))
    (d_ROI (Sample.row 7 (final_table C7_data.ms C7_data.ss C7_data.mp)))
    (d_total_sales (Sample.row 7 (final_table C7_data.ms C7_data.ss C7_data.mp)))
    (d_segment (Sample.row 7 (final_table C7_data.ms C7_data.ss C7_data.mp))).
Proof.
  apply (value_segment_first_match C7_data.ms C7_data.ss C7_data.mp).
  vm_compute. do 7 right. left. reflexivity.
Defined.

Lemma segment_unchanged_by_filtering_witness :
  In (Sample.row 5
        (filtered_distributor C7_data.january (sales_data C7_data.ss)
           (final_table C7_data.ms C7_data.ss C7_data.mp)))
     (final_table C7_data.ms C7_data.ss C7_data.mp).
Proof.
  apply (segment_unchanged_by_filtering
           C7_data.ms C7_data.ss C7_data.mp C7_data.january).
  vm_compute. do 5 right. left. reflexivity.
Defined.

(** The thresholds are those of the whole table: taken over the January
    view alone they would have made Z high-value, but its label stays the
    one of the unfiltered table. *)
Example january_view_keeps_global_label :
  let full := final_table C7_data.ms C7_data.ss C7_data.mp in
  let view := filtered_distributor C7_data.january (sales_data C7_data.ss) full in
  map d_segment (filter (fun d => String.eqb (d_customer_code d) "Z") view)
  = [Growth]
  /\ F64.ltb (percentile_75 view) (F64.of_Z 10) = true
  /\ F64.ltb (percentile_75 full) (F64.of_Z 10) = false.
Proof. vm_compute. auto. Qed.

(** ** Price imputation and cost (C5) *)

(** With no known price in the list the mean price is null. *)
Lemma mean_price_no_known_price (mp : list PriceRow) :
  (forall p, In p mp -> F64.isna (unit_price p) = true) ->
  mean_price mp = F64.nan.
Proof.
  intros H. unfold mean_price, mean_skipna.
  assert (E : filter (fun x => negb (F64.isna x)) (map unit_price mp) = []).
  { induction mp as [|p mp IH]; simpl; [reflexivity|].
    rewrite (H p) by now left. simpl. apply IH. intros q Hq. apply H. now right. }
  now rewrite E.
Qed.

Lemma fillna_not_nan (v x : float) :
  F64.isna v = false -> F64.isna (fillna v x) = false.
Proof. unfold fillna. now destruct x. Qed.

(** C5, amended: for every material row after the left join and the
    imputation, material cost is quantity times unit price; a row whose
    product code has no match in the price list receives the mean of the
    known prices; and unit price is not null provided that mean is not null
    (it is null when the price list holds no known price). *)
Theorem imputed_price_and_cost :
  forall (ms : list MaterialSource) (mp : list PriceRow) (m : Material),
    In m (material_data ms mp) ->
    m_cost m = F64.mul (ms_quantity (m_source m)) (m_unit_price m)
    /\ ((forall p, In p mp -> material_code p <> ms_product_code (m_source m)) ->
        m_unit_price m = mean_price mp)
    /\ (F64.isna (mean_price mp) = false -> F64.isna (m_unit_price m) = false).
Proof.
  intros ms mp m Hm. apply In_material_data in Hm.
  destruct Hm as [src [_ [[-> _] | [p [Hp [Hc ->]]]]]]; simpl.
  - split; [reflexivity|]. split; [reflexivity|]. intros H; exact H.
  - split; [reflexivity|]. split.
    + intros Hno. exfalso. exact (Hno p Hp Hc).
    + apply fillna_not_nan.
Qed.

Lemma imputed_price_and_cost_witness :
  m_unit_price (hd (material_row F64.nan (Sample.dispatch "" "" "" None F64.nan) None)
                   (material_data C5_data.ms C5_data.mp))
  = mean_price C5_data.mp.
Proof.
  apply (imputed_price_and_cost C5_data.ms C5_data.mp).
  - vm_compute. left. reflexivity.
  - vm_compute. intros p [<- | [<- | []]]; discriminate.
Defined.

(** C5 as stated fails: with no known price the mean is null, and so is the
    imputed unit price. *)
Lemma unit_price_never_null_fails :
  ~ unit_price_never_null C5_data.ms C5_data.mp_blank.
Proof.
  intros H.
  specialize (H (material_row (mean_price C5_data.mp_blank)
                              (hd (Sample.dispatch "" "" "" None F64.nan) C5_data.ms)
                              None)).
  assert (X : F64.isna
                (m_unit_price
                   (material_row (mean_price C5_data.mp_blank)
                      (hd (Sample.dispatch "" "" "" None F64.nan) C5_data.ms)
                      None)) = true) by (vm_compute; reflexivity).
  rewrite H in X; [discriminate|].
  vm_compute. left. reflexivity.
Qed.

(** ** Unit efficiency (C10) *)

Lemma mul_finite_l (x y : float) :
  F64.is_finite (F64.mul x y) = true -> F64.is_finite x = true.
Proof.
  destruct x as [sx|sx| |sx mx ex], y as [sy|sy| |sy my ey]; simpl;
    try reflexivity; discriminate.
Qed.

Lemma div_by_finite_not_nan (x y : float) :
  F64.is_finite x = true -> F64.is_finite y = true ->
  F64.eqb y F64.zero = false -> F64.isna (F64.div x y) = false.
Proof.
  intros Hx Hy Hz. destruct (F64.isna (F64.div x y)) eqn:N; [|reflexivity].
  apply div_nan_inv in N. unfold F64.is_finite in Hx, Hy.
  destruct N as [N | [N | [[N _] | [_ N]]]];
    try (rewrite N in Hx; try rewrite orb_true_r in Hx; discriminate);
    try (rewrite N in Hy; discriminate).
  congruence.
Qed.

(** With a finite, non-zero cost neither [replace(0, np.nan)] nor
    [fillna(0)] changes anything: the unit efficiency is the quotient of the
    quantity by the cost. *)
Lemma efficiency_is_quantity_over_cost :
  forall (ms : list MaterialSource) (mp : list PriceRow) (m : Material),
    In m (material_data ms mp) ->
    F64.is_finite (m_cost m) = true ->
    F64.eqb (m_cost m) F64.zero = false ->
    m_efficiency m
    = F64.div (ms_quantity (m_source m))
              (F64.mul (ms_quantity (m_source m)) (m_unit_price m)).
Proof.
  intros ms mp m Hm.
  assert (E : exists src p, m = material_row (mean_price mp) src p).
  { apply In_material_data in Hm.
    destruct Hm as [src [_ [[-> _] | [p [_ [_ ->]]]]]]; eauto. }
  destruct E as [src [p ->]]. simpl.
  set (price := fillna _ _). set (q := ms_quantity src).
  intros Hf Hz. unfold replace_zero_nan. rewrite Hz.
  unfold fillna at 1.
  now rewrite (div_by_finite_not_nan q (F64.mul q price) (mul_finite_l q price Hf) Hf Hz).
Qed.


(** [to_Q] and [is_normal] on some numbers: 0.75 is normal, the cost of the
    underflow below is not. *)
Example to_Q_samples :
  (to_Q F64.one == 1)%Q /\ (to_Q F64.three_quarters == 3 # 4)%Q
  /\ (to_Q (F64.of_Z (-3)) == -3)%Q
  /\ (to_Q one_tenth == 3602879701896397 # 36028797018963968)%Q.
Proof. vm_compute. repeat split. Qed.

Example is_normal_samples :
  is_normal F64.three_quarters = true
  /\ is_normal F64.zero = false
  /\ is_normal (F64.div F64.one F64.zero) = false
  /\ is_normal (S754_finite false 1 (-1073)) = false.
Proof. vm_compute. repeat split. Qed.

(** *** Rounding: what [binary_round_aux] leaves of a significand *)

Section Rounding.
Variables prec emax : Z.

Lemma shr_1_mantissa (mrs : shr_record) :
  0 <= shr_m mrs -> shr_m (shr_1 mrs) = shr_m mrs / 2.
Proof.
  destruct mrs as [m r s].
  destruct m as [|[p|p|]|p]; cbn [shr_1 shr_m]; intros H;
    try reflexivity; try lia.
  - apply (Z.div_unique _ 2 _ 1); lia.
  - apply (Z.div_unique _ 2 _ 0); lia.
Qed.

Lemma iter_shr_1_mantissa (p : positive) (mrs : shr_record) :
  0 <= shr_m mrs ->
  shr_m (iter_pos shr_1 p mrs) = shr_m mrs / 2 ^ Zpos p.
Proof.
  assert (P : forall q, 0 <= shr_m q -> 0 <= shr_m (shr_1 q)).
  { intros q Hq. rewrite shr_1_mantissa by exact Hq. apply Z.div_pos; lia. }
  revert mrs. induction p as [p IH|p IH|]; intros mrs H; cbn [iter_pos].
  - assert (H1 := P mrs H).
    assert (H2 : 0 <= shr_m (iter_pos shr_1 p (shr_1 mrs))).
    { rewrite IH; [apply Z.div_pos; lia | exact H1]. }
    assert (Q : 0 < 2 ^ Zpos p) by (apply Z.pow_pos_nonneg; lia).
    rewrite (IH _ H2), (IH _ H1), shr_1_mantissa by exact H.
    rewrite !Z.div_div by lia. f_equal.
    replace (Z.pos p~1) with (Z.pos p + Z.pos p + 1) by lia.
    rewrite !Z.pow_add_r by lia. change (2 ^ 1) with 2. ring.
  - assert (H2 : 0 <= shr_m (iter_pos shr_1 p mrs)).
    { rewrite IH; [apply Z.div_pos; lia | exact H]. }
    assert (Q : 0 < 2 ^ Zpos p) by (apply Z.pow_pos_nonneg; lia).
    rewrite (IH _ H2), (IH _ H). rewrite Z.div_div by lia. f_equal.
    replace (Z.pos p~0) with (Z.pos p + Z.pos p) by lia.
    rewrite Z.pow_add_r by lia. ring.
  - rewrite shr_1_mantissa by exact H. reflexivity.
Qed.

Lemma shr_mantissa (mrs : shr_record) (e n : Z) :
  0 <= shr_m mrs ->
  exists k, 0 <= k /\ snd (shr mrs e n) = e + k
            /\ shr_m (fst (shr mrs e n)) = shr_m mrs / 2 ^ k.
Proof.
  intros H. destruct n as [|p|p]; simpl.
  - exists 0. rewrite Z.div_1_r. lia.
  - exists (Zpos p). rewrite iter_shr_1_mantissa by exact H. lia.
  - exists 0. rewrite Z.div_1_r. lia.
Qed.

Lemma shr_record_of_loc_mantissa (m : Z) (l : location) :
  shr_m (shr_record_of_loc m l) = m.
Proof. now destruct l as [|[| |]]. Qed.

Lemma shr_fexp_mantissa (m e : Z) (l : location) :
  0 <= m ->
  exists k, 0 <= k /\ snd (shr_fexp prec emax m e l) = e + k
            /\ shr_m (fst (shr_fexp prec emax m e l)) = m / 2 ^ k.
Proof.
  intros H. unfold shr_fexp.
  destruct (shr_mantissa (shr_record_of_loc m l) e
              (fexp prec emax (Zdigits2 m + e) - e)) as (k & K & E & M).
  - now rewrite shr_record_of_loc_mantissa.
  - exists k. now rewrite shr_record_of_loc_mantissa in M.
Qed.

Lemma round_nearest_even_cases (m : Z) (l : location) :
  round_nearest_even m l = m \/ round_nearest_even m l = m + 1.
Proof. destruct l as [|[| |]]; simpl; auto. destruct (Z.even m); auto. Qed.

(** A finite result keeps the sign, counts in units of [2 ^ k] times the
    unit of the input, and is less than one such unit away from it. *)
Lemma binary_round_aux_finite (s : bool) (mx ex : Z) (lx : location)
    (s' : bool) (m : positive) (e : Z) :
  0 <= mx ->
  binary_round_aux prec emax s mx ex lx = S754_finite s' m e ->
  s' = s /\ exists k, 0 <= k /\ e = ex + k
                      /\ (Zpos m - 1) * 2 ^ k <= mx < (Zpos m + 1) * 2 ^ k.
Proof.
  intros H. unfold binary_round_aux.
  destruct (shr_fexp_mantissa mx ex lx H) as (k1 & K1 & E1 & M1).
  destruct (shr_fexp prec emax mx ex lx) as [mrs' e']. simpl in E1, M1.
  set (m1 := round_nearest_even (shr_m mrs') (loc_of_shr_record mrs')).
  assert (R : m1 = shr_m mrs' \/ m1 = shr_m mrs' + 1)
    by apply round_nearest_even_cases.
  assert (P1 : 0 < 2 ^ k1) by (apply Z.pow_pos_nonneg; lia).
  assert (N1 : 0 <= m1).
  { assert (0 <= shr_m mrs') by (rewrite M1; apply Z.div_pos; lia). lia. }
  destruct (shr_fexp_mantissa m1 e' loc_Exact N1) as (k2 & K2 & E2 & M2).
  destruct (shr_fexp prec emax m1 e' loc_Exact) as [mrs'' e'']. simpl in E2, M2.
  assert (P2 : 0 < 2 ^ k2) by (apply Z.pow_pos_nonneg; lia).
  destruct (shr_m mrs'') as [|m2|m2] eqn:Em; try discriminate.
  destruct (e'' <=? emax - prec); try discriminate.
  intros Eq. injection Eq as <- <- <-. split; [reflexivity|].
  exists (k1 + k2). split; [lia|]. split; [lia|].
  rewrite Z.pow_add_r by lia.
  pose proof (Z.div_mod mx (2 ^ k1) ltac:(lia)) as D1.
  pose proof (Z.mod_pos_bound mx (2 ^ k1) P1) as B1.
  pose proof (Z.div_mod m1 (2 ^ k2) ltac:(lia)) as D2.
  pose proof (Z.mod_pos_bound m1 (2 ^ k2) P2) as B2.
  rewrite <- M1 in D1. rewrite <- M2 in D2.
  nia.
Qed.

End Rounding.

(** The significand of a normal number has 53 bits. *)
Lemma digits2_pos_lower (p : positive) :
  2 ^ (Zpos (digits2_pos p) - 1) <= Zpos p.
Proof.
  induction p as [p IH|p IH|]; cbn [digits2_pos]; try (simpl; lia).
  - rewrite Pos2Z.inj_succ.
    replace (Z.succ (Zpos (digits2_pos p)) - 1)
      with (Zpos (digits2_pos p) - 1 + 1) by lia.
    rewrite Z.pow_add_r by lia. change (2 ^ 1) with 2. lia.
  - rewrite Pos2Z.inj_succ.
    replace (Z.succ (Zpos (digits2_pos p)) - 1)
      with (Zpos (digits2_pos p) - 1 + 1) by lia.
    rewrite Z.pow_add_r by lia. change (2 ^ 1) with 2. lia.
Qed.

Lemma is_normal_finite (x : float) :
  is_normal x = true ->
  exists s m e, x = S754_finite s m e /\ 2 ^ 52 <= Zpos m.
Proof.
  unfold is_normal, SFclassify.
  destruct x as [[|]|[|]| |[|] m e]; try discriminate.
  - destruct (Zpos (digits2_pos m) =? F64.prec) eqn:E; [|discriminate].
    intros _. exists true, m, e. split; [reflexivity|].
    apply Z.eqb_eq in E. pose proof (digits2_pos_lower m) as L.
    rewrite E in L. exact L.
  - destruct (Zpos (digits2_pos m) =? F64.prec) eqn:E; [|discriminate].
    intros _. exists false, m, e. split; [reflexivity|].
    apply Z.eqb_eq in E. pose proof (digits2_pos_lower m) as L.
    rewrite E in L. exact L.
Qed.

Lemma is_normal_finite_nonzero (x : float) :
  is_normal x = true ->
  F64.is_finite x = true /\ F64.eqb x F64.zero = false.
Proof.
  intros H. destruct (is_normal_finite x H) as (s & m & e & -> & _).
  split; [reflexivity | now destruct s].
Qed.

(** The integer quotient that [SFdiv] rounds. *)
Lemma div_core_quotient (m1 m2 : positive) (e1 e2 : Z) :
  exists s, 0 <= s
    /\ snd (fst (SFdiv_core_binary F64.prec F64.emax (Zpos m1) e1 (Zpos m2) e2))
       = e1 - e2 - s
    /\ fst (fst (SFdiv_core_binary F64.prec F64.emax (Zpos m1) e1 (Zpos m2) e2))
       = (Zpos m1 * 2 ^ s) / Zpos m2.
Proof.
  unfold SFdiv_core_binary.
  set (e' := Z.min _ _).
  assert (He : e' <= e1 - e2) by apply Z.le_min_r.
  exists (e1 - e2 - e'). split; [lia|].
  destruct (e1 - e2 - e') as [|p|p] eqn:Es; try lia.
  - rewrite Z.mul_1_r.
    unfold Z.div. destruct (Z.div_eucl (Zpos m1) (Zpos m2)). simpl. split; lia.
  - rewrite Z.shiftl_mul_pow2 by lia.
    unfold Z.div. destruct (Z.div_eucl (Zpos m1 * 2 ^ Zpos p) (Zpos m2)).
    simpl. split; lia.
Qed.

(** *** The error of a product followed by a quotient *)

(** On significands: [mc] counts the product [mq * mp] in units of [a], [q0]
    is the integer quotient of [mq * s] by [mc], and [me] counts [q0] in
    units of [k], each to within one unit.  Then [me * mp * k] is [a * s] to
    within one part in [2 ^ 50]. *)
Lemma quotient_of_product_close (mq mp mc me q0 a s k : Z) :
  0 < mq -> 0 < mp -> 0 < a -> 0 < s -> 0 < k ->
  2 ^ 52 <= mc -> 2 ^ 52 <= me ->
  (mc - 1) * a <= mq * mp < (mc + 1) * a ->
  q0 * mc <= mq * s < (q0 + 1) * mc ->
  (me - 1) * k <= q0 < (me + 1) * k ->
  2 ^ 50 * Z.abs (me * mp * k - a * s) <= a * s.
Proof.
  intros Hq Hp Ha Hs Hk Hc He [P1 P2] [D1 D2] [R1 R2].
  change (2 ^ 52) with 4503599627370496 in *.
  change (2 ^ 50) with 1125899906842624.
  set (y := mp * k). set (t := a * s).
  assert (Hy : 0 < y) by (unfold y; nia).
  assert (Ht : 0 < t) by (unfold t; nia).
  assert (U : (me - 1) * mc * y < (mc + 1) * t).
  { apply Z.le_lt_trans with (mq * mp * s).
    - apply Z.le_trans with (q0 * mc * mp).
      + unfold y.
        replace ((me - 1) * mc * (mp * k)) with ((me - 1) * k * (mc * mp)) by ring.
        replace (q0 * mc * mp) with (q0 * (mc * mp)) by ring.
        apply Z.mul_le_mono_nonneg_r; nia.
      + replace (mq * mp * s) with (mq * s * mp) by ring.
        apply Z.mul_le_mono_nonneg_r; lia.
    - unfold t. replace ((mc + 1) * (a * s)) with ((mc + 1) * a * s) by ring.
      apply Z.mul_lt_mono_pos_r; lia. }
  assert (L : (mc - 1) * t < (me + 1) * mc * y).
  { apply Z.le_lt_trans with (mq * mp * s).
    - unfold t. replace ((mc - 1) * (a * s)) with ((mc - 1) * a * s) by ring.
      apply Z.mul_le_mono_nonneg_r; lia.
    - apply Z.lt_le_trans with ((q0 + 1) * mc * mp).
      + replace (mq * mp * s) with (mq * s * mp) by ring.
        apply Z.mul_lt_mono_pos_r; lia.
      + unfold y.
        replace ((me + 1) * mc * (mp * k)) with ((me + 1) * k * (mc * mp)) by ring.
        replace ((q0 + 1) * mc * mp) with ((q0 + 1) * (mc * mp)) by ring.
        apply Z.mul_le_mono_nonneg_r; nia. }
  replace (me * mp * k) with (me * y) by (unfold y; ring).
  assert (M : 1125899906842624 * me + 1125899906842624 * mc + mc <= mc * me)
    by nia.
  assert (G1 : 1125899906842624 * (me * y) <= 1125899906842625 * t).
  { apply Z.lt_le_incl.
    apply (Z.mul_lt_mono_pos_r (mc * (me - 1))); [nia|].
    apply Z.lt_le_trans with (1125899906842624 * me * ((mc + 1) * t)).
    - replace (1125899906842624 * (me * y) * (mc * (me - 1)))
        with (1125899906842624 * me * ((me - 1) * mc * y)) by ring.
      apply Z.mul_lt_mono_pos_l; [lia | exact U].
    - replace (1125899906842624 * me * ((mc + 1) * t))
        with (1125899906842624 * me * (mc + 1) * t) by ring.
      replace (1125899906842625 * t * (mc * (me - 1)))
        with (1125899906842625 * (mc * (me - 1)) * t) by ring.
      apply Z.mul_le_mono_nonneg_r; [lia | nia]. }
  assert (G2 : 1125899906842623 * t <= 1125899906842624 * (me * y)).
  { apply Z.lt_le_incl.
    apply (Z.mul_lt_mono_pos_r (mc * (me + 1))); [nia|].
    apply Z.le_lt_trans with (1125899906842624 * me * ((mc - 1) * t)).
    - replace (1125899906842623 * t * (mc * (me + 1)))
        with (1125899906842623 * (mc * (me + 1)) * t) by ring.
      replace (1125899906842624 * me * ((mc - 1) * t))
        with (1125899906842624 * me * (mc - 1) * t) by ring.
      apply Z.mul_le_mono_nonneg_r; [lia | nia].
    - replace (1125899906842624 * (me * y) * (mc * (me + 1)))
        with (1125899906842624 * me * ((me + 1) * mc * y)) by ring.
      apply Z.mul_lt_mono_pos_l; [lia | exact L]. }
  lia.
Qed.

Lemma pow2_Q (k : Z) : 0 <= k -> (2 ^ k == inject_Z (2 ^ k))%Q.
Proof. intros H. now rewrite Zpower_Qpower. Qed.

(** The product of two numbers of the same sign, as a quotient of integers. *)
Lemma dyadic_product (b : bool) (m1 m2 : positive) (e1 e2 k t : Z) :
  0 <= k -> 0 <= t -> e1 + e2 = k - t ->
  (to_Q (S754_finite b m1 e1) * to_Q (S754_finite b m2 e2)
   == inject_Z (Zpos m1 * Zpos m2 * 2 ^ k) / inject_Z (2 ^ t))%Q.
Proof.
  intros Hk Ht E. unfold to_Q.
  assert (N : ~ (2 == 0)%Q) by discriminate.
  assert (P : (2 ^ e1 * 2 ^ e2 == inject_Z (2 ^ k) / inject_Z (2 ^ t))%Q).
  { rewrite <- Qpower_plus, E, Qpower_minus by exact N.
    now rewrite (pow2_Q k Hk), (pow2_Q t Ht). }
  rewrite !inject_Z_mult.
  transitivity (inject_Z (Zpos m1) * inject_Z (Zpos m2) * (2 ^ e1 * 2 ^ e2))%Q.
  - destruct b; ring.
  - rewrite P. unfold Qdiv. ring.
Qed.

Lemma ratio_close (x t : Z) :
  0 < t -> 2 ^ 50 * Z.abs (x - t) <= t ->
  (Qabs (inject_Z x / inject_Z t - 1) <= tolerance)%Q.
Proof.
  intros Ht H. change (2 ^ 50) with 1125899906842624 in H.
  assert (T : (0 < inject_Z t)%Q).
  { change (inject_Z 0 < inject_Z t)%Q. rewrite <- Zlt_Qlt. exact Ht. }
  assert (U : (inject_Z 1125899906842624 * (inject_Z x - inject_Z t)
               <= inject_Z t)%Q).
  { unfold Qminus.
    rewrite <- inject_Z_opp, <- inject_Z_plus, <- inject_Z_mult, <- Zle_Qle.
    lia. }
  assert (L : (inject_Z 1125899906842624 * (inject_Z t - inject_Z x)
               <= inject_Z t)%Q).
  { unfold Qminus.
    rewrite <- inject_Z_opp, <- inject_Z_plus, <- inject_Z_mult, <- Zle_Qle.
    lia. }
  set (a := inject_Z x) in *. set (b := inject_Z t) in *.
  change (inject_Z 1125899906842624) with (1125899906842624 # 1)%Q in U, L.
  apply Qabs_Qle_condition. unfold tolerance.
  change (2 ^ 50)%positive with 1125899906842624%positive.
  split.
  - apply Qplus_le_l with (z := 1%Q). ring_simplify.
    apply Qle_shift_div_l; [exact T|]. lra.
  - apply Qplus_le_l with (z := 1%Q). ring_simplify.
    apply Qle_shift_div_r; [exact T|]. lra.
Qed.

(** The quotient of a quantity by its cost, against the price: when the
    product and the quotient are normal numbers, the quotient times the
    price is 1 to within the tolerance. *)
Lemma div_mul_close (q p : float) :
  is_normal (F64.mul q p) = true ->
  is_normal (F64.div q (F64.mul q p)) = true ->
  (Qabs (to_Q (F64.div q (F64.mul q p)) * to_Q p - 1) <= tolerance)%Q.
Proof.
  intros Nc Ne.
  destruct (is_normal_finite _ Nc) as (sc & mc & ec & Ec & Hc).
  destruct (is_normal_finite _ Ne) as (se & me & ee & Ee & He).
  rewrite Ee. rewrite Ec in Ee.
  destruct q as [sq|sq| |sq mq xq]; try discriminate Ee;
    destruct p as [sp|sp| |sp mp xp]; try discriminate Ec.
  unfold F64.mul, SFmul in Ec.
  apply binary_round_aux_finite in Ec; [|lia].
  destruct Ec as (-> & k1 & K1 & -> & P).
  unfold F64.div, SFdiv in Ee.
  destruct (div_core_quotient mq mc xq (xq + xp + k1)) as (s & S & Ez & Mz).
  destruct (SFdiv_core_binary F64.prec F64.emax (Zpos mq) xq (Zpos mc)
              (xq + xp + k1)) as [[mz ez] lz].
  cbn [fst snd] in Ez, Mz.
  assert (P1 : 0 < 2 ^ k1) by (apply Z.pow_pos_nonneg; lia).
  assert (PS : 0 < 2 ^ s) by (apply Z.pow_pos_nonneg; lia).
  assert (Nz : 0 <= mz).
  { rewrite Mz. apply Z.div_pos; nia. }
  apply binary_round_aux_finite in Ee; [|exact Nz].
  destruct Ee as (-> & k2 & K2 & -> & R).
  assert (P2 : 0 < 2 ^ k2) by (apply Z.pow_pos_nonneg; lia).
  assert (D : mz * Zpos mc <= Zpos mq * 2 ^ s < (mz + 1) * Zpos mc).
  { pose proof (Z.div_mod (Zpos mq * 2 ^ s) (Zpos mc) ltac:(lia)) as D.
    pose proof (Z.mod_pos_bound (Zpos mq * 2 ^ s) (Zpos mc) ltac:(lia)) as B.
    rewrite <- Mz in D. lia. }
  rewrite Pos2Z.inj_mul in P.
  pose proof (quotient_of_product_close (Zpos mq) (Zpos mp) (Zpos mc) (Zpos me)
                mz (2 ^ k1) (2 ^ s) (2 ^ k2)
                ltac:(lia) ltac:(lia) P1 PS P2 Hc He P D R) as C.
  replace (xorb sq (xorb sq sp)) with sp by (destruct sq, sp; reflexivity).
  rewrite (dyadic_product sp me mp (ez + k2) xp k2 (k1 + s)) by lia.
  apply ratio_close.
  - rewrite Z.pow_add_r by lia. lia.
  - rewrite Z.pow_add_r by lia. exact C.
Qed.

Lemma material_row_cost (ms : list MaterialSource) (mp : list PriceRow)
    (m : Material) :
  In m (material_data ms mp) ->
  m_cost m = F64.mul (ms_quantity (m_source m)) (m_unit_price m).
Proof.
  intros Hm. apply In_material_data in Hm.
  destruct Hm as [src [_ [[-> _] | [p [_ [_ ->]]]]]]; reflexivity.
Qed.

Lemma normal_efficiency_close (ms : list MaterialSource) (mp : list PriceRow)
    (m : Material) :
  In m (material_data ms mp) ->
  is_normal (m_cost m) = true -> is_normal (m_efficiency m) = true ->
  (Qabs (to_Q (m_efficiency m) * to_Q (m_unit_price m) - 1) <= tolerance)%Q.
Proof.
  intros Hm Nc Ne.
  destruct (is_normal_finite_nonzero _ Nc) as [F Z].
  pose proof (efficiency_is_quantity_over_cost ms mp m Hm F Z) as E.
  rewrite (material_row_cost ms mp m Hm) in Nc.
  rewrite E in Ne |- *. now apply div_mul_close.
Qed.

(** C10, amended: for every material row whose material cost (quantity times
    unit price, in binary64) is finite and not zero, the unit efficiency is
    the binary64 quotient quantity / (quantity * unit price).  When neither
    the product nor the quotient overflows or underflows (cost and
    efficiency are normal numbers), it is 1 / unit price up to rounding:
    efficiency * unit price differs from 1 by at most 2^-50.  So it is
    independent of the quantity up to rounding only: two such rows with the
    same unit price have efficiencies that differ, relative to 1 / unit
    price, by at most 2^-49. *)
Theorem efficiency_is_inverse_price_up_to_rounding :
  forall (ms : list MaterialSource) (mp : list PriceRow) (m : Material),
    In m (material_data ms mp) ->
    F64.is_finite (m_cost m) = true ->
    F64.eqb (m_cost m) F64.zero = false ->
    m_efficiency m
    = F64.div (ms_quantity (m_source m))
              (F64.mul (ms_quantity (m_source m)) (m_unit_price m))
    /\ (is_normal (m_cost m) = true -> is_normal (m_efficiency m) = true ->
        (Qabs (to_Q (m_efficiency m) * to_Q (m_unit_price m) - 1)
         <= tolerance)%Q)
    /\ (forall m' : Material,
          In m' (material_data ms mp) ->
          m_unit_price m' = m_unit_price m ->
          is_normal (m_cost m) = true -> is_normal (m_efficiency m) = true ->
          is_normal (m_cost m') = true -> is_normal (m_efficiency m') = true ->
          (Qabs ((to_Q (m_efficiency m) - to_Q (m_efficiency m'))
                 * to_Q (m_unit_price m))
           <= 2 * tolerance)%Q).
Proof.
  intros ms mp m Hm F Z.
  split; [exact (efficiency_is_quantity_over_cost ms mp m Hm F Z)|]. split.
  - exact (normal_efficiency_close ms mp m Hm).
  - intros m' Hm' Ep Nc Ne Nc' Ne'.
    pose proof (normal_efficiency_close ms mp m Hm Nc Ne) as A.
    pose proof (normal_efficiency_close ms mp m' Hm' Nc' Ne') as B.
    rewrite Ep in B.
    apply Qabs_Qle_condition in A, B. apply Qabs_Qle_condition.
    unfold tolerance in *.
    set (e := to_Q (m_efficiency m)) in *.
    set (e' := to_Q (m_efficiency m')) in *.
    set (p := to_Q (m_unit_price m)) in *.
    setoid_replace ((e - e') * p)%Q with (e * p - e' * p)%Q by ring.
    split; lra.
Qed.

Lemma efficiency_is_inverse_price_up_to_rounding_witness :
  (Qabs (to_Q (m_efficiency
                 (hd C10_data.blank (material_data C10_data.ms C10_data.mp)))
         * to_Q (m_unit_price
                   (hd C10_data.blank (material_data C10_data.ms C10_data.mp)))
         - 1)
   <= tolerance)%Q.
Proof.
  destruct (efficiency_is_inverse_price_up_to_rounding C10_data.ms C10_data.mp
              (hd C10_data.blank (material_data C10_data.ms C10_data.mp)))
    as (_ & T & _).
  - vm_compute. left. reflexivity.
  - vm_compute. reflexivity.
  - vm_compute. reflexivity.
  - apply T; vm_compute; reflexivity.
Defined.

(** Without the proviso the relation is lost: when the cost underflows
    (3 * 2^-1075 rounds to 2^-1073), the efficiency of 3 * 2^-600 boxes at
    2^-475 is three quarters of 1 / unit price. *)
Example efficiency_when_cost_underflows :
  let m := hd C10_data.blank (material_data C10_data.ms_tiny C10_data.mp_tiny) in
  is_normal (m_cost m) = false
  /\ m_efficiency m
     = F64.mul F64.three_quarters (F64.div F64.one (m_unit_price m))
  /\ (to_Q (m_efficiency m) * to_Q (m_unit_price m) == 3 # 4)%Q.
Proof. vm_compute. repeat split. Qed.

(** C10 as stated fails: 3 / (3 * 0.1) is 9.999999999999998, not 1 / 0.1. *)
Lemma efficiency_is_inverse_price_fails :
  ~ efficiency_is_inverse_price C10_data.ms C10_data.mp.
Proof.
  intros H.
  specialize (H (hd C10_data.blank (material_data C10_data.ms C10_data.mp))).
  assert (X : F64.eqb
                (m_efficiency
                   (hd C10_data.blank (material_data C10_data.ms C10_data.mp)))
                (F64.div F64.one
                   (m_unit_price
                      (hd C10_data.blank (material_data C10_data.ms C10_data.mp))))
              = false) by (vm_compute; reflexivity).
  rewrite H in X; [discriminate | | | |].
  - vm_compute. left. reflexivity.
  - vm_compute. reflexivity.
  - vm_compute. reflexivity.
  - vm_compute. reflexivity.
Qed.

(** At the same price the efficiency of one box and of three boxes differ. *)
Example efficiency_depends_on_quantity :
  map m_efficiency (material_data C10_data.ms C10_data.mp)
  = [S754_finite false 5629499534213119 (-49);
     S754_finite false 5629499534213120 (-49)].
Proof. vm_compute. reflexivity. Qed.

(** ** Remote loading and fallback (C6) *)

Lemma load_from_github_None {A} (r : Remote A) :
  load_from_github r = None <-> remote_failure r.
Proof.
  split.
  - destruct r as [e|status body]; simpl; [constructor|].
    unfold raise_for_status.
    destruct (400 <=? status) eqn:L, (status <? 600) eqn:U; simpl;
      try (destruct body; [discriminate | intros _; apply unparsable]).
    intros _. apply error_status. apply Z.leb_le in L. apply Z.ltb_lt in U. lia.
  - intros [e | status body [L U] | status e]; simpl; try reflexivity.
    + unfold raise_for_status.
      apply Z.leb_le in L. apply Z.ltb_lt in U. now rewrite L, U.
    + now destruct (raise_for_status status).
Qed.

Lemma load_github_fails (w : Files) :
  remote_failure (github_material_data w)
  \/ remote_failure (github_sales_data w)
  \/ remote_failure (github_material_price w) ->
  exists e, load_github w = Raise e.
Proof.
  unfold load_github. rewrite <- !load_from_github_None.
  intros [H | [H | H]]; rewrite H;
    repeat match goal with
           | |- context [match ?x with Some _ => _ | None => _ end] => destruct x
           end; eauto.
Qed.

(** Whatever the flag, the three tables come from one side. *)
Lemma load_tables_one_source (use_github : bool) (w : Files)
    (m : list MaterialSource) (s : list SalesSource) (p : list PriceRow) :
  load_tables use_github w = Ok (m, s, p) ->
  (load_from_github (github_material_data w) = Some m
   /\ load_from_github (github_sales_data w) = Some s
   /\ load_from_github (github_material_price w) = Some p)
  \/ (local_material_data w = Ok m /\ local_sales_data w = Ok s
      /\ local_material_price w = Ok p).
Proof.
  assert (L : load_local w = Ok (m, s, p) ->
              local_material_data w = Ok m /\ local_sales_data w = Ok s
              /\ local_material_price w = Ok p).
  { unfold load_local, bind.
    destruct (local_material_data w), (local_sales_data w),
      (local_material_price w); try discriminate.
    intros E. injection E as -> -> ->. auto. }
  unfold load_tables. destruct use_github; [|auto].
  destruct (load_github w) as [t|e] eqn:G; [|auto].
  intros E. injection E as ->. left. revert G. unfold load_github.
  destruct (load_from_github (github_material_data w)),
    (load_from_github (github_sales_data w)),
    (load_from_github (github_material_price w)); try discriminate.
  intros E. injection E as -> -> ->. auto.
Qed.

(** C6: when remote loading is configured and one of the three remote files
    fails to be retrieved or parsed, [load_data] falls back to the local
    source for all three tables: when the three local files are readable, the
    tables it processes and returns are those of the three local files, and
    no table that it works on comes from the remote side; when a local read
    raises, that error is what [load_data] raises, and no table is
    returned. *)
Theorem github_failure_falls_back_to_local :
  forall w : Files,
    remote_failure (github_material_data w)
    \/ remote_failure (github_sales_data w)
    \/ remote_failure (github_material_price w) ->
    load_tables true w = load_local w
    /\ load_data true w = load_data false w
    /\ (forall m s p,
          local_material_data w = Ok m -> local_sales_data w = Ok s ->
          local_material_price w = Ok p ->
          load_tables true w = Ok (m, s, p)
          /\ load_data true w = Ok (process m s p))
    /\ (forall m s p, load_tables true w = Ok (m, s, p) ->
          local_material_data w = Ok m /\ local_sales_data w = Ok s
          /\ local_material_price w = Ok p)
    /\ (forall e, local_material_data w = Raise e -> load_data true w = Raise e)
    /\ (forall m e, local_material_data w = Ok m ->
          local_sales_data w = Raise e -> load_data true w = Raise e)
    /\ (forall m s e, local_material_data w = Ok m -> local_sales_data w = Ok s ->
          local_material_price w = Raise e -> load_data true w = Raise e).
Proof.
  intros w H. apply load_github_fails in H. destruct H as [e G].
  assert (T : load_tables true w = load_local w).
  { unfold load_tables. now rewrite G. }
  split; [exact T|]. split; [unfold load_data; now rewrite T|].
  split; [|split; [|split; [|split]]].
  - intros m s p Hm Hs Hp. unfold load_data. rewrite T.
    unfold load_local. rewrite Hm, Hs, Hp. split; reflexivity.
  - intros m s p E. rewrite T in E.
    destruct (load_tables_one_source false w m s p E) as [X | X]; [|exact X].
    unfold load_github in G. destruct X as [X1 [X2 X3]].
    rewrite X1, X2, X3 in G. discriminate.
  - intros e1 Hm. unfold load_data. rewrite T. unfold load_local.
    now rewrite Hm.
  - intros m e2 Hm Hs. unfold load_data. rewrite T. unfold load_local.
    now rewrite Hm, Hs.
  - intros m s e3 Hm Hs Hp. unfold load_data. rewrite T. unfold load_local.
    now rewrite Hm, Hs, Hp.
Qed.

Lemma github_failure_falls_back_to_local_witness :
  load_tables true C6_data.files = Ok (C7_data.ms, C7_data.ss, C7_data.mp)
  /\ load_data true C6_data.files = Ok (process C7_data.ms C7_data.ss C7_data.mp).
Proof.
  assert (F : remote_failure (github_material_data C6_data.files)
              \/ remote_failure (github_sales_data C6_data.files)
              \/ remote_failure (github_material_price C6_data.files)).
  { right. left. apply error_status. lia. }
  destruct (github_failure_falls_back_to_local C6_data.files F)
    as (_ & _ & S & _).
  apply S; reflexivity.
Defined.

(** With one remote failure and an unreadable local sales file, the error of
    that local read is raised, although two remote files were retrieved. *)
Example local_failure_propagates :
  load_data true C6_data.files_unreadable = Raise (Exception "no such file").
Proof. reflexivity. Qed.

(** ** Determinism (C9) *)

(** *** The order of the keys *)

Lemma compare_refl (x : string) : String.compare x x = Eq.
Proof. now apply String_as_OT.cmp_eq. Qed.

Lemma compare_lt_trans (x y z : string) :
  String.compare x y = Lt -> String.compare y z = Lt -> String.compare x z = Lt.
Proof.
  intros H1 H2. apply String_as_OT.cmp_lt.
  apply String_as_OT.cmp_lt in H1, H2.
  eapply String_as_OT.lt_trans; eassumption.
Qed.

Lemma key_leb_total (a b : key) : key_leb a b = true \/ key_leb b a = true.
Proof.
  revert b. induction a as [|x a IH]; intros [|y b]; simpl; auto.
  rewrite (String.compare_antisym y x).
  destruct (String.compare x y); simpl; auto.
Qed.

Lemma key_leb_antisym (a b : key) :
  key_leb a b = true -> key_leb b a = true -> a = b.
Proof.
  revert b. induction a as [|x a IH]; intros [|y b]; simpl;
    try reflexivity; try discriminate.
  rewrite (String.compare_antisym y x).
  destruct (String.compare x y) eqn:E; simpl; try discriminate.
  apply String.compare_eq_iff in E. subst y.
  intros H1 H2. f_equal. now apply IH.
Qed.

Lemma key_leb_trans (a b c : key) :
  key_leb a b = true -> key_leb b c = true -> key_leb a c = true.
Proof.
  revert b c. induction a as [|x a IH]; intros [|y b] [|z c]; simpl;
    try reflexivity; try discriminate.
  destruct (String.compare x y) eqn:Exy; try discriminate;
    destruct (String.compare y z) eqn:Eyz; try discriminate.
  - apply String.compare_eq_iff in Exy, Eyz. subst. rewrite compare_refl.
    apply IH.
  - apply String.compare_eq_iff in Exy. subst. now rewrite Eyz.
  - apply String.compare_eq_iff in Eyz. subst. now rewrite Exy.
  - now rewrite (compare_lt_trans x y z Exy Eyz).
Qed.

Lemma insert_key_sorted (k : key) (l : list key) :
  StronglySorted (fun a b => key_leb a b = true) l ->
  StronglySorted (fun a b => key_leb a b = true) (insert_key k l).
Proof.
  induction 1 as [|k' l S IH F]; simpl.
  - repeat constructor.
  - destruct (key_leb k k') eqn:E.
    + constructor; [now constructor|]. constructor; [exact E|].
      eapply Forall_impl; [|exact F]. intros c. now apply key_leb_trans.
    + constructor; [exact IH|].
      assert (L : key_leb k' k = true).
      { destruct (key_leb_total k k'); congruence. }
      clear IH S. induction l as [|c l IHl]; simpl.
      * now repeat constructor.
      * inversion F; subst. destruct (key_leb k c); constructor; auto.
Qed.

Lemma sort_keys_sorted (l : list key) :
  StronglySorted (fun a b => key_leb a b = true) (sort_keys l).
Proof.
  induction l; simpl; [constructor | now apply insert_key_sorted].
Qed.

Lemma sorted_distinct (l : list key) :
  StronglySorted (fun a b => key_leb a b = true) l -> NoDup l ->
  StronglySorted key_lt l.
Proof.
  induction 1 as [|k l S IH F]; intros N; [constructor|].
  inversion N; subst. constructor; [auto|].
  rewrite Forall_forall in *. intros c Hc. split; [auto|].
  intros ->. contradiction.
Qed.

(** [sort_keys] lists distinct keys in increasing order. *)
Lemma sort_keys_increasing (l : list key) :
  NoDup l -> StronglySorted key_lt (sort_keys l).
Proof.
  intros N. apply sorted_distinct; [apply sort_keys_sorted|].
  now apply NoDup_sort_keys.
Qed.

(** Two increasing lists of keys with the same members are the same list. *)
Lemma increasing_unique (l1 l2 : list key) :
  StronglySorted key_lt l1 -> StronglySorted key_lt l2 ->
  (forall k, In k l1 <-> In k l2) -> l1 = l2.
Proof.
  intros S1. revert l2.
  induction S1 as [|a l1 S1 IH F1]; intros l2 S2 H.
  - destruct l2 as [|b l2]; [reflexivity|]. destruct (proj2 (H b)). now left.
  - destruct S2 as [|b l2 S2 F2]; [destruct (proj1 (H a)); now left|].
    rewrite Forall_forall in F1, F2.
    assert (E : a = b).
    { destruct (proj1 (H a) (or_introl eq_refl)) as [E | Ha]; [now symmetry|].
      destruct (proj2 (H b) (or_introl eq_refl)) as [E | Hb]; [exact E|].
      destruct (F1 b Hb) as [L1 _], (F2 a Ha) as [L2 _].
      now apply key_leb_antisym. }
    subst b. f_equal. apply IH; [exact S2|].
    intros k. split; intros Hk.
    + destruct (proj1 (H k) (or_intror Hk)) as [E | Hk']; [|exact Hk'].
      subst k. now destruct (F1 a Hk).
    + destruct (proj2 (H k) (or_intror Hk)) as [E | Hk']; [|exact Hk'].
      subst k. now destruct (F2 a Hk).
Qed.

(** *** The contracts determine the tables *)

Lemma keyed_table_eq {B} (f : key -> B) (out : list (key * B)) :
  (forall k v, In (k, v) out -> v = f k) ->
  out = map (fun k => (k, f k)) (map fst out).
Proof.
  induction out as [|[k v] out IH]; intros H; [reflexivity|]. simpl.
  rewrite (H k v (or_introl eq_refl)). f_equal.
  apply IH. intros k' v' Hin. apply H. now right.
Qed.

Lemma joined_table_eq {B C} (f : key -> option B) (g : key -> option C)
    (out : list (key * option B * option C)) :
  (forall k l r, In (k, l, r) out -> l = f k /\ r = g k) ->
  out = map (fun k => (k, f k, g k)) (map (fun j => fst (fst j)) out).
Proof.
  induction out as [|[[k l] r] out IH]; intros H; [reflexivity|]. simpl.
  destruct (H k l r (or_introl eq_refl)) as [-> ->]. f_equal.
  apply IH. intros k' l' r' Hin. apply H. now right.
Qed.

(** The model's [groupby] meets the contract, and is all that meets it. *)
Lemma groupby_meets_contract {A B} (keyof : A -> option key) (agg : list A -> B)
    (rows : list A) :
  groupby_contract keyof agg rows (groupby keyof agg rows).
Proof.
  unfold groupby_contract. rewrite groupby_keys. split; [|split].
  - apply sort_keys_increasing, NoDup_nodup.
  - apply In_group_keys.
  - apply In_groupby.
Qed.

Lemma groupby_contract_unique {A B} (keyof : A -> option key) (agg : list A -> B)
    (rows : list A) (out : list (key * B)) :
  groupby_contract keyof agg rows out -> out = groupby keyof agg rows.
Proof.
  intros (S & K & V).
  rewrite (keyed_table_eq (fun k => agg (filter (in_group keyof k) rows)) out V).
  unfold groupby. f_equal.
  apply increasing_unique; [exact S | apply sort_keys_increasing, NoDup_nodup|].
  intros k. rewrite K. symmetry. apply In_group_keys.
Qed.

(** So does the model's outer [merge], on tables with one row per key. *)
Lemma merge_outer_meets_contract {B C} (left : list (key * B))
    (right : list (key * C)) :
  NoDup (map fst left) -> NoDup (map fst right) ->
  merge_outer_contract left right (merge_outer left right).
Proof.
  intros NL NR. unfold merge_outer_contract.
  rewrite (merge_outer_unique left right NL NR), map_map. simpl.
  rewrite map_id. split; [|split].
  - apply sort_keys_increasing, NoDup_nodup.
  - intros k. now rewrite In_sort_keys, nodup_In, in_app_iff.
  - intros k l r H. apply in_map_iff in H. destruct H as [k' [E _]].
    now injection E as <- <- <-.
Qed.

Lemma merge_outer_contract_unique {B C} (left : list (key * B))
    (right : list (key * C)) (out : list (key * option B * option C)) :
  NoDup (map fst left) -> NoDup (map fst right) ->
  merge_outer_contract left right out -> out = merge_outer left right.
Proof.
  intros NL NR (S & K & V).
  rewrite (joined_table_eq _ _ out V), (merge_outer_unique left right NL NR).
  f_equal.
  apply increasing_unique; [exact S | apply sort_keys_increasing, NoDup_nodup|].
  intros k. now rewrite K, In_sort_keys, nodup_In, in_app_iff.
Qed.

(** What [process] computes is a run. *)
Lemma process_is_run (ms : list MaterialSource) (ss : list SalesSource)
    (mp : list PriceRow) : pipeline_run ms ss mp (process ms ss mp).
Proof.
  apply (run ms ss mp
           (material_cost_by_distributor (material_data ms mp))
           (sales_by_distributor (sales_data ss))
           (merge_outer (material_cost_by_distributor (material_data ms mp))
                        (sales_by_distributor (sales_data ss)))
           (material_diversity (material_data ms mp)));
    try apply groupby_meets_contract.
  apply merge_outer_meets_contract.
  - apply NoDup_material_cost_keys.
  - apply NoDup_sales_keys.
Qed.

(** Every run ends with the tables that [process] computes. *)
Lemma run_is_process (ms : list MaterialSource) (ss : list SalesSource)
    (mp : list PriceRow) (out : Loaded) :
  pipeline_run ms ss mp out -> out = process ms ss mp.
Proof.
  intros [cost sales joined diversity Hc Hs Hj Hd].
  apply groupby_contract_unique in Hc, Hs, Hd. subst cost sales diversity.
  apply merge_outer_contract_unique in Hj;
    [|apply NoDup_material_cost_keys | apply NoDup_sales_keys].
  subst joined. reflexivity.
Qed.

(** C9: the pipeline is deterministic.  On three given raw tables a run of
    the derivation, aggregation and segmentation exists, and any two runs,
    in which [groupby] and the outer [merge] are held to nothing more than
    their documented contract, return identical enriched material, sales,
    price and aggregated tables: the same rows with the same values in the
    same order.  Whatever the flag and the source the three tables were read
    from, that outcome is what [load_data] returns. *)
Theorem pipeline_deterministic :
  forall (ms : list MaterialSource) (ss : list SalesSource) (mp : list PriceRow),
    pipeline_run ms ss mp (process ms ss mp)
    /\ (forall out1 out2 : Loaded,
          pipeline_run ms ss mp out1 -> pipeline_run ms ss mp out2 ->
          out1 = out2)
    /\ (forall (use_github : bool) (w : Files) (out : Loaded),
          load_tables use_github w = Ok (ms, ss, mp) ->
          pipeline_run ms ss mp out ->
          load_data use_github w = Ok out).
Proof.
  intros ms ss mp. split; [apply process_is_run|]. split.
  - intros out1 out2 R1 R2.
    now rewrite (run_is_process ms ss mp out1 R1), (run_is_process ms ss mp out2 R2).
  - intros g w out E R. unfold load_data. rewrite E. simpl.
    now rewrite (run_is_process ms ss mp out R).
Qed.

Lemma pipeline_deterministic_witness :
  pipeline_run C7_data.ms C7_data.ss C7_data.mp
    (process C7_data.ms C7_data.ss C7_data.mp).
Proof.
  apply (pipeline_deterministic C7_data.ms C7_data.ss C7_data.mp).
Defined.

(** In the aggregated table of a run the keys increase strictly: the order
    of its rows owes nothing to the order of the rows read. *)
Lemma aggregated_keys_increase (ms : list MaterialSource) (ss : list SalesSource)
    (mp : list PriceRow) :
  StronglySorted key_lt
    (map (fun d => [d_customer_code d; d_distributor d; d_month_name d])
         (ld_distributor_data (process ms ss mp))).
Proof.
  unfold process. cbn [ld_distributor_data].
  rewrite distributor_data_shape, aggregate_shape, !map_map.
  rewrite (map_ext_in _ (fun k => k)), map_id.
  - apply sort_keys_increasing, NoDup_nodup.
  - intros k Hk. apply aggregate_keys_three in Hk.
    destruct Hk as (c & n & m & ->). reflexivity.
Qed.

(** ** The filtered distributor view (C8) *)

Lemma In_filtered_sales (f : FilterSpec) (sd : list Sales) (s : Sales) :
  In s (filtered_sales f sd) <->
  In s sd
  /\ In (ss_region (s_source s)) (selected_regions f)
  /\ In (ss_province (s_source s)) (selected_provinces f)
  /\ cell_is (month_name (s_dates s)) (selected_month f) = true.
Proof.
  unfold filtered_sales.
  rewrite filter_In, !andb_true_iff, !isin_In. tauto.
Qed.

Lemma cell_is_Some (x : string) (v : cell) :
  cell_is (Some x) v = true <-> v = Some x.
Proof.
  rewrite cell_is_eq. split.
  - intros [s [E ->]]. now injection E as ->.
  - intros ->. now exists x.
Qed.

(** C8: for every filter specification, the rows of the filtered
    distributor view are exactly the rows of the distributor table whose
    month label is the selected period, whose segment is among the selected
    ones, and whose distributor code is the code of a sales row of a selected
    region, a selected province and the selected period.  So a distributor
    with no row in the filtered sales table has none in the view. *)
Theorem filtered_distributor_rows :
  forall (f : FilterSpec) (sd : list Sales) (t : list Distributor) (d : Distributor),
    In d (filtered_distributor f sd t) <->
    In d t
    /\ selected_month f = Some (d_month_name d)
    /\ In (d_segment d) (selected_segments f)
    /\ exists s,
         In s sd
         /\ ss_customer_code (s_source s) = Some (d_customer_code d)
         /\ In (ss_region (s_source s)) (selected_regions f)
         /\ In (ss_province (s_source s)) (selected_provinces f)
         /\ month_name (s_dates s) = selected_month f.
Proof.
  intros f sd t d. unfold filtered_distributor, valid_distributors.
  rewrite !filter_In, isin_In, nodup_In, in_map_iff, existsb_exists, cell_is_Some.
  split.
  - intros [[[Hd Hm] [x [Hx Ex]]] [s [Es Hs]]].
    unfold segment_eqb in Ex. destruct (Segment_eq_dec (d_segment d) x); [|discriminate].
    subst x. apply In_filtered_sales in Hs.
    destruct Hs as [Hs [Hr [Hp Hc]]].
    repeat split; trivial. exists s. repeat split; trivial.
    apply cell_is_eq in Hc. destruct Hc as [y [-> ->]]. reflexivity.
  - intros [Hd [Hm [Hseg [s [Hs [Es [Hr [Hp Hc]]]]]]]].
    repeat split; trivial.
    + exists (d_segment d). split; [assumption|].
      unfold segment_eqb. now destruct (Segment_eq_dec (d_segment d) (d_segment d)).
    + exists s. split; [assumption|]. apply In_filtered_sales.
      repeat split; trivial. rewrite Hc, Hm. apply cell_is_Some. reflexivity.
Qed.

Lemma filtered_distributor_rows_witness :
  selected_month C7_data.january
  = Some (d_month_name
            (Sample.row 5
               (filtered_distributor C7_data.january (sales_data C7_data.ss)
                  (final_table C7_data.ms C7_data.ss C7_data.mp)))).
Proof.
  apply (proj1 (filtered_distributor_rows C7_data.january (sales_data C7_data.ss)
                  (final_table C7_data.ms C7_data.ss C7_data.mp) _)).
  vm_compute. do 5 right. left. reflexivity.
Defined.
